(** * A shallow embedding of the biothings merge builder and record chain

    The development follows two source files:
    - [biothings/hub/datatransform/record_chain.py] (class [RecChain]),
      embedded in [Module RecChain];
    - [biothings/databuild/builder.py] (class [DataBuilder]), embedded in
      [Module Builder].

    Python exceptions are values of [exn]; a computation that may raise
    returns a [result]. *)

From stdpp Require Import gmap strings list fin_maps pretty relations.

Open Scope string_scope.
Open Scope nat_scope.
Open Scope list_scope.

(** ** Python exceptions *)

Inductive exn : Type :=
| KeyboardInterrupt
| SystemExit
| AssertionError (msg : string)
| KeyError (key : string)
| IndexError (msg : string)
| TypeError (msg : string)
| AttributeError (msg : string)
| ValueError (msg : string)
| NotImplementedError (msg : string)
| NetworkXError (msg : string)
| BuilderException (msg : string)
| ResumeException (msg : string)
| OtherException (cls msg : string).

#[global] Instance exn_eq_dec : EqDecision exn.
Proof. solve_decision. Defined.

Inductive result (A : Type) : Type :=
| Ok (a : A)
| Raise (e : exn).
Arguments Ok {A} a.
Arguments Raise {A} e.

(** How a generator ends: it is exhausted, it raises, or the model runs out
    of fuel (the Python code recurses without bound). *)
Inductive stop : Type :=
| Finished
| Raised (e : exn)
| OutOfFuel.

(** [for x in xs: yield from f(x)]: the items produced before the first
    generator that does not finish, and how the whole loop ends. *)
Fixpoint gen_concat {A B : Type} (f : A → list B * stop) (xs : list A)
  : list B * stop :=
  match xs with
  | [] => ([], Finished)
  | x :: xs' =>
      match f x with
      | (ys, Finished) => let '(zs, st) := gen_concat f xs' in (ys ++ zs, st)
      | (ys, st) => (ys, st)
      end
  end.

(** ** record_chain.py *)

Module RecChain.

(** Node identifiers: the hashable values the hub uses as ids. *)
Inductive ident : Type :=
| IInt (z : Z)
| IStr (s : string).

#[global] Instance ident_eq_dec : EqDecision ident.
Proof. solve_decision. Defined.

(** Arguments that are not chains: one identifier or a list of them. *)
Inductive pyobj : Type :=
| OId (i : ident)
| OList (l : list ident).

(** [for id in ids]: an int is not iterable, a str iterates over its
    characters, a list over its elements. *)
Definition py_iter (o : pyobj) : result (list ident) :=
  match o with
  | OId (IInt _) => Raise (TypeError "'int' object is not iterable")
  | OId (IStr s) => Ok ((λ c, IStr (String c EmptyString)) <$> String.list_ascii_of_string s)
  | OList l => Ok l
  end.

(** [nx.DiGraph]: an insertion-ordered dict from each node to the
    insertion-ordered collection of its successors. *)
Definition digraph : Type := list (ident * list ident).

Fixpoint succs (g : digraph) (n : ident) : option (list ident) :=
  match g with
  | [] => None
  | (k, vs) :: g' => if decide (k = n) then Some vs else succs g' n
  end.

Fixpoint set_succs (g : digraph) (n : ident) (vs : list ident) : digraph :=
  match g with
  | [] => []
  | (k, ws) :: g' =>
      if decide (k = n) then (k, vs) :: g' else (k, ws) :: set_succs g' n vs
  end.

(** [graph.nodes()] *)
Definition nodes (g : digraph) : list ident := g.*1.

(** [graph.add_node(n)]: no effect on a node that is present. *)
Definition add_node (g : digraph) (n : ident) : digraph :=
  match succs g n with
  | Some _ => g
  | None => g ++ [(n, [])]
  end.

(** [graph.add_edge(u, v)]: adds missing end points, [u] first. *)
Definition add_edge (g : digraph) (u v : ident) : digraph :=
  let g1 := add_node (add_node g u) v in
  match succs g1 u with
  | Some vs => if decide (v ∈ vs) then g1 else set_succs g1 u (vs ++ [v])
  | None => g1
  end.

(** Degrees of a node of the graph. *)
Definition out_deg (g : digraph) (n : ident) : nat :=
  length (default [] (succs g n)).

Definition in_deg (g : digraph) (n : ident) : nat :=
  length (filter (λ kv, n ∈ kv.2) g).

(** [graph.out_edges(n)] for any object [n]; networkx refuses an object that
    is not a node. *)
Definition out_edges (g : digraph) (n : ident) : result (list (ident * ident)) :=
  match succs g n with
  | Some vs => Ok (pair n <$> vs)
  | None => Raise (NetworkXError "nbunch is not a node or a sequence of nodes.")
  end.

(** The edge relation of the graph. *)
Definition edge (g : digraph) (u v : ident) : Prop :=
  ∃ vs, succs g u = Some vs ∧ v ∈ vs.

Definition edgeb (g : digraph) (u v : ident) : bool :=
  match succs g u with
  | Some vs => bool_decide (v ∈ vs)
  | None => false
  end.

(** [RecChain.add_root] *)
Definition add_root (g : digraph) (obj1 : ident) : digraph := add_node g obj1.

(** [RecChain.add] (the trace it prints is not modelled). *)
Definition add (g : digraph) (obj1 obj2 : ident) : digraph :=
  add_edge (add_node g obj2) obj1 obj2.

(** [RecChain.root_nodes] *)
Definition root_nodes (g : digraph) : list ident :=
  filter (λ x, out_deg g x = 1 ∧ in_deg g x = 0) (nodes g).

(** [RecChain.leaf_nodes] *)
Definition leaf_nodes (g : digraph) : list ident :=
  filter (λ x, out_deg g x = 0 ∧ in_deg g x = 1) (nodes g).

(** [RecChain.find_leaf]: a recursive generator. The recursion is on the
    graph, so the model takes fuel: one unit per nested call. *)
Fixpoint find_leaf (fuel : nat) (g : digraph) (n : ident) : list ident * stop :=
  match fuel with
  | 0 => ([], OutOfFuel)
  | S fuel' =>
      match out_edges g n with
      | Raise e => ([], Raised e)
      | Ok [] => ([n], Finished)
      | Ok es => gen_concat (λ e, find_leaf fuel' g e.2) es
      end
  end.

(** [RecChain.find_left]: iterates over its argument. *)
Definition find_left (fuel : nat) (g : digraph) (ids : pyobj) : list ident * stop :=
  match py_iter ids with
  | Raise e => ([], Raised e)
  | Ok l => gen_concat (find_leaf fuel g) l
  end.

(** [RecChain.lookup]: returns at the first leaf equal to [obj2]; [None]
    when the fuel does not suffice to decide. *)
Definition lookup (fuel : nat) (g : digraph) (obj1 : pyobj) (obj2 : ident)
  : option (result bool) :=
  let '(items, st) := find_left fuel g obj1 in
  if decide (obj2 ∈ items) then Some (Ok true)
  else match st with
       | Finished => Some (Ok false)
       | Raised e => Some (Raise e)
       | OutOfFuel => None
       end.

(** [RecChain.__iter__] *)
Definition iter (fuel : nat) (g : digraph) : list (ident * ident) * stop :=
  gen_concat
    (λ r, let '(ls, st) := find_leaf fuel g r in (pair r <$> ls, st))
    (root_nodes g).

(** [RecChain.__iadd__], for [other] an object distinct from [self]: the
    graph of [self] after the statement and how the statement ends. *)
Definition iadd (fuel : nat) (self : digraph) (other : digraph + pyobj)
  : digraph * stop :=
  match other with
  | inr _ => (self, Raised (TypeError "other is not of type RecChain"))
  | inl g =>
      let '(pairs, st) := iter fuel g in
      (foldl (λ acc p, add acc p.1 p.2) self pairs, st)
  end.

(** The graph of the repository's test: roots 1, 2, 3 and then the edges
    1→2, 2→3, 3→4, 3→5. *)
Definition test_chain : digraph :=
  let g0 := foldl add_root [] [IInt 1; IInt 2; IInt 3] in
  foldl (λ g p, add g p.1 p.2) g0
    [(IInt 1, IInt 2); (IInt 2, IInt 3); (IInt 3, IInt 4); (IInt 3, IInt 5)].

(** Well-formed graphs (what [add_root] and [add] build): every successor
    is a node. Acyclic graphs: no node reaches itself. *)
Definition wf (g : digraph) : Prop :=
  ∀ u v, edge g u v → is_Some (succs g v).

Definition acyclic (g : digraph) : Prop :=
  ∀ n, ¬ tc (edge g) n n.

(** [v] is a node without successors that [n] reaches. *)
Definition leaf_of (g : digraph) (n v : ident) : Prop :=
  rtc (edge g) n v ∧ succs g v = Some [].

(** [RecChain.__len__] *)
Definition len (g : digraph) : nat := length (root_nodes g).

(** [RecChain.left] and [RecChain.right] *)
Definition left (g : digraph) (obj : ident) : bool :=
  bool_decide (obj ∈ root_nodes g).

Definition right (g : digraph) (id : ident) : bool :=
  bool_decide (id ∈ leaf_nodes g).

(** The calls that change a chain, and a chain built by a sequence of them
    from the empty one of [RecChain.__init__]. *)
Inductive op : Type :=
| OpRoot (obj1 : ident)
| OpAdd (obj1 obj2 : ident).

Definition apply_op (g : digraph) (o : op) : digraph :=
  match o with
  | OpRoot x => add_root g x
  | OpAdd x y => add g x y
  end.

Definition build (ops : list op) : digraph := foldl apply_op [] ops.

(** No node is listed twice and no successor twice. *)
Definition simple (g : digraph) : Prop :=
  NoDup (nodes g) ∧ Forall (λ kv, NoDup kv.2) g.

(** [RecChain.find_leaf] under the interpreter's recursion limit: [limit]
    is the number of nested calls the interpreter still allows, and the
    call past it raises [RecursionError], which the generators pass on to
    the consumer after the items yielded so far. *)
Definition find_leaf_limited (limit : nat) (g : digraph) (n : ident)
  : list ident * stop :=
  match find_leaf limit g n with
  | (items, OutOfFuel) =>
      (items, Raised (OtherException "RecursionError"
                        "maximum recursion depth exceeded"))
  | run => run
  end.

(** A two-node cycle, 1→2→1. *)
Definition cycle_chain : digraph := build [OpAdd (IInt 1) (IInt 2); OpAdd (IInt 2) (IInt 1)].

End RecChain.

(** ** builder.py *)

Module Builder.

(** *** Values of the documents *)

(** What the fields of a configuration document and of a build record hold. *)
Inductive value : Type :=
| VNone
| VStr (s : string)
| VInt (z : Z)
| VList (l : list string)
| VCounts (m : gmap string Z)
| VVersions (m : gmap string string).

#[global] Instance value_eq_dec : EqDecision value.
Proof. solve_decision. Defined.

(** A Python dict with string keys: a build record, a document. *)
Abbreviation record := (gmap string value).

(** Truth value of an object ([if x], [not x]). *)
Definition truthy (v : value) : bool :=
  match v with
  | VNone => false
  | VStr s => negb (bool_decide (s = EmptyString))
  | VInt z => negb (bool_decide (z = 0%Z))
  | VList l => negb (bool_decide (l = []))
  | VCounts m => negb (bool_decide (m = ∅))
  | VVersions m => negb (bool_decide (m = ∅))
  end.

(** [repr] of a str, for text without quotes or escapes. *)
Definition repr_str (s : string) : string := "'" +:+ s +:+ "'".

(** [str(v)], as [%s] renders it. A dict is rendered in key order. *)
Definition py_str (v : value) : string :=
  match v with
  | VNone => "None"
  | VStr s => s
  | VInt z => pretty z
  | VList l => "[" +:+ String.concat ", " (repr_str <$> l) +:+ "]"
  | VCounts m =>
      "{" +:+ String.concat ", "
        ((λ kv, repr_str kv.1 +:+ ": " +:+ pretty kv.2) <$> map_to_list m) +:+ "}"
  | VVersions m =>
      "{" +:+ String.concat ", "
        ((λ kv, repr_str kv.1 +:+ ": " +:+ repr_str kv.2) <$> map_to_list m) +:+ "}"
  end.

Definition chars (s : string) : list string :=
  (λ c, String c EmptyString) <$> String.list_ascii_of_string s.

(** [x in c] *)
Definition py_contains (x c : value) : result bool :=
  match c with
  | VList l => Ok (match x with VStr s => bool_decide (s ∈ l) | _ => false end)
  | VStr t =>
      match x with
      | VStr s => Ok (bool_decide (is_Some (String.index 0 s t)))
      | _ => Raise (TypeError "'in <string>' requires string as left operand")
      end
  | VCounts m => Ok (match x with VStr s => bool_decide (is_Some (m !! s)) | _ => false end)
  | VVersions m => Ok (match x with VStr s => bool_decide (is_Some (m !! s)) | _ => false end)
  | VNone | VInt _ => Raise (TypeError "argument is not iterable")
  end.

(** Position of the first element equal to [x]. *)
Fixpoint list_index (x : string) (l : list string) : option nat :=
  match l with
  | [] => None
  | y :: l' => if decide (y = x) then Some 0 else S <$> list_index x l'
  end.

(** [c[c.index(x):]] *)
Definition py_slice_from_index (x c : value) : result value :=
  match c, x with
  | VList l, VStr s =>
      match list_index s l with
      | Some i => Ok (VList (drop i l))
      | None => Raise (ValueError (repr_str s +:+ " is not in list"))
      end
  | VList l, _ => Raise (ValueError (py_str x +:+ " is not in list"))
  | VStr t, VStr s =>
      match String.index 0 s t with
      | Some i => Ok (VStr (String.substring i (String.length t - i) t))
      | None => Raise (ValueError "substring not found")
      end
  | VStr _, _ => Raise (TypeError "must be str")
  | _, _ => Raise (AttributeError "object has no attribute 'index'")
  end.

(** [set(v)] *)
Definition py_set (v : value) : result (gset string) :=
  match v with
  | VList l => Ok (list_to_set l)
  | VStr s => Ok (list_to_set (chars s))
  | VCounts m => Ok (dom m)
  | VVersions m => Ok (dom m)
  | VNone | VInt _ => Raise (TypeError "object is not iterable")
  end.

(** [repr(e)] of an exception. *)
Definition exn_repr (e : exn) : string :=
  match e with
  | KeyboardInterrupt => "KeyboardInterrupt()"
  | SystemExit => "SystemExit()"
  | AssertionError m => "AssertionError(" +:+ repr_str m +:+ ",)"
  | KeyError k => "KeyError(" +:+ repr_str k +:+ ",)"
  | IndexError m => "IndexError(" +:+ repr_str m +:+ ",)"
  | TypeError m => "TypeError(" +:+ repr_str m +:+ ",)"
  | AttributeError m => "AttributeError(" +:+ repr_str m +:+ ",)"
  | ValueError m => "ValueError(" +:+ repr_str m +:+ ",)"
  | NotImplementedError m => "NotImplementedError(" +:+ repr_str m +:+ ",)"
  | NetworkXError m => "NetworkXError(" +:+ repr_str m +:+ ",)"
  | BuilderException m => "BuilderException(" +:+ repr_str m +:+ ",)"
  | ResumeException m => "ResumeException(" +:+ repr_str m +:+ ",)"
  | OtherException c m => c +:+ "(" +:+ repr_str m +:+ ",)"
  end.

(** [except (KeyboardInterrupt, Exception)]: the classes the clause of
    [merge] catches. [SystemExit] derives from [BaseException] only. *)
Definition caught_by_merge (e : exn) : bool :=
  match e with
  | SystemExit => false
  | _ => true
  end.

(** *** Collaborators *)

(** Calls on the source backend, the target backend and the mappers. A
    mapper is named by its key in [id_mappers] ([None] for no id type). *)
Inductive event : Type :=
| EValidateSources (sources : value)
| EGetSrcVersions
| EGetSrcMasterDocs
| EFeed (src_name : string) (batch_size : Z)
| ENeedLoad (id_type : option string)
| ELoad (id_type : option string)
| EProcess (id_type : option string) (docs : list record)
| ESetTargetName (target_name : value)
| EDrop
| EPrepare
| EUpdate (docs : list record) (upsert : bool)
| EFinalize
| EPostMerge
| ECount.

(** The behaviour of everything outside [builder.py]. Every answer may
    depend on the calls made so far. *)
Record collaborators : Type := {
  (* the Python runtime and biothings.utils.common *)
  py_list_of_set : gset string → list string;
  os_getpid : Z;
  clock : list event → Z;
  timesofar : Z → string;
  (* calls that return nothing: the exception raised, if any *)
  respond : list event → event → option exn;
  (* source backend *)
  get_src_versions : list event → result (gmap string string);
  get_src_master_docs : list event → result (gmap string (option string));
  doc_feeder : list event → string → Z → list (list record) * option exn;
  (* mappers *)
  need_load : list event → option string → result bool;
  process : list event → option string → list record → result (list record);
  (* target backend *)
  target_name : list event → value;
  update : list event → list record → bool → result Z;
  count : list event → result Z
}.

(** [list(s)] enumerates the elements of the set [s], in some order. *)
Definition set_order_ok (env : collaborators) : Prop :=
  ∀ X, py_list_of_set env X ≡ₚ elements X.

(** *** The builder and its state *)

Inductive level : Type := DEBUG | INFO | ERROR.

Inductive message : Type :=
| MsgRegistered (build_info : record)
| MsgInitMapper (id_type : option string)
| MsgFoundMapper (id_type : option string) (src_name : string)
| MsgMerging (source_names : list string)
| MsgUpdateOnly (src_name : string)
| MsgTraceback (e : exn)
| MsgValidating
| MsgCountOk (target_cnt : Z)
| MsgCountMismatch (target_cnt expected : Z)
| MsgResuming (build : record).

(** The attributes of a [DataBuilder] that its methods only read. *)
Record builder : Type := {
  build_name : string;
  doc_root_key : option string;
  parallel_engine : bool;
  max_build_status : Z;
  id_mappers : list (option string);
  _build_config : option record;
  logfile : value;
  target_backend_name : string;
  (* attribute [_stats]; no method of the class assigns it *)
  _stats : option (gmap string Z)
}.

(** What the methods change: the persisted configuration document (its
    name and its [build] list, [None] when the key is absent), the calls
    made, the log and [self.t0]. *)
Record state : Type := {
  st_name : string;
  st_build : option (list record);
  st_events : list event;
  st_log : list (level * message);
  st_t0 : Z
}.

Definition set_build (b : option (list record)) (s : state) : state :=
  {| st_name := st_name s; st_build := b; st_events := st_events s;
     st_log := st_log s; st_t0 := st_t0 s |}.

Definition add_event (e : event) (s : state) : state :=
  {| st_name := st_name s; st_build := st_build s;
     st_events := st_events s ++ [e]; st_log := st_log s; st_t0 := st_t0 s |}.

Definition add_log (l : level) (m : message) (s : state) : state :=
  {| st_name := st_name s; st_build := st_build s; st_events := st_events s;
     st_log := st_log s ++ [(l, m)]; st_t0 := st_t0 s |}.

Definition set_t0 (t : Z) (s : state) : state :=
  {| st_name := st_name s; st_build := st_build s; st_events := st_events s;
     st_log := st_log s; st_t0 := t |}.

(** *** A state and exception monad *)

Definition M (A : Type) : Type := state → result A * state.

#[global] Instance M_ret : MRet M := λ A a s, (Ok a, s).

#[global] Instance M_bind : MBind M := λ A B f m s,
  match m s with
  | (Ok a, s') => f a s'
  | (Raise e, s') => (Raise e, s')
  end.

Definition raise {A : Type} (e : exn) : M A := λ s, (Raise e, s).
Definition get : M state := λ s, (Ok s, s).
Definition modify (f : state → state) : M unit := λ s, (Ok (), f s).
Definition lift {A : Type} (r : result A) : M A := λ s, (r, s).

(** [try: body except (KeyboardInterrupt, Exception) as e: handler(e)] *)
Definition try_except {A : Type} (body : M A) (catches : exn → bool)
    (handler : exn → M A) : M A := λ s,
  match body s with
  | (Raise e, s') => if catches e then handler e s' else (Raise e, s')
  | r => r
  end.

(** [try: body finally: fin]: an exception of [fin] replaces the outcome
    of [body]. *)
Definition try_finally {A : Type} (body : M A) (fin : M unit) : M A := λ s,
  let '(r, s') := body s in
  match fin s' with
  | (Ok _, s'') => (r, s'')
  | (Raise e, s'') => (Raise e, s'')
  end.

Fixpoint foldM {A B : Type} (f : B → A → M B) (b : B) (xs : list A) : M B :=
  match xs with
  | [] => mret b
  | x :: xs' => b' ← f b x; foldM f b' xs'
  end.

Fixpoint repeatM (n : nat) (m : M unit) : M unit :=
  match n with
  | 0 => mret ()
  | S n' => m;; repeatM n' m
  end.

(** *** The methods of [DataBuilder] *)

Section methods.

Variable env : collaborators.

Definition log (l : level) (m : message) : M unit := modify (add_log l m).

Definition py_assert (b : bool) (msg : string) : M unit :=
  if b then mret () else raise (AssertionError msg).

(** [if b: m] *)
Definition when (b : bool) (m : M unit) : M unit :=
  if b then m else mret ().

(** A call that returns nothing. *)
Definition call (e : event) : M unit := λ s,
  match respond env (st_events s) e with
  | None => (Ok (), add_event e s)
  | Some x => (Raise x, add_event e s)
  end.

(** A call that returns a value. *)
Definition ask {A : Type} (e : event) (answer : list event → result A) : M A :=
  λ s, (answer (st_events s), add_event e s).

(** [self._build_config[k]] *)
Definition config_getitem (self : builder) (k : string) : M value :=
  match _build_config self with
  | None => raise (TypeError "'NoneType' object is not subscriptable")
  | Some c =>
      match c !! k with
      | Some v => mret v
      | None => raise (KeyError k)
      end
  end.

(** The collection [source_backend.build] holds the document of the bound
    configuration, found by [self._build_config['_id']]. *)
Definition find_one (self : builder) : M (option (list record)) :=
  config_getitem self "_id";;
  s ← get; mret (st_build s).

Definition replace_one (self : builder) (_cfg : option (list record)) : M unit :=
  config_getitem self "_id";;
  modify (set_build _cfg).

(** [{"$push": {'build': build_info}}]: appends, creating the list. *)
Definition push_build (self : builder) (build_info : record) : M unit :=
  config_getitem self "_id";;
  modify (λ s, set_build (Some (default [] (st_build s) ++ [build_info])) s).

(** [{"$pop": {'build': -1}}]: removes the first element. *)
Definition pop_build (self : builder) : M unit :=
  config_getitem self "_id";;
  modify (λ s, set_build (tail <$> st_build s) s).

(** [_cfg["build"][-1].update(build_info)] *)
Definition update_last (_cfg : option (list record)) (build_info : record)
  : result (list record) :=
  match _cfg with
  | None => Raise (KeyError "build")
  | Some b =>
      match last b with
      | None => Raise (IndexError "list index out of range")
      | Some r => Ok (removelast b ++ [build_info ∪ r])
      end
  end.

Definition config_truthy (self : builder) : bool :=
  match _build_config self with
  | None => false
  | Some c => negb (bool_decide (c = ∅))
  end.

(** The dict [build_info] of [register_status], before [extra] is merged
    into it. *)
Definition new_build_info (self : builder) (status : string) (transient : bool)
    (s : state) : record :=
  let now := clock env (st_events s) in
  let build_info : record :=
    <["status" := VStr status]> (<["started_at" := VInt now]>
    (<["logfile" := logfile self]>
    (<["target_backend" := VStr (target_backend_name self)]>
    (<["target_name" := target_name env (st_events s)]> ∅)))) in
  if transient then <["pid" := VInt (os_getpid env)]> build_info
  else <["time_in_s" := VInt (now - st_t0 s)]>
         (<["time" := VStr (timesofar env (now - st_t0 s))]> build_info).

(** [DataBuilder.register_status]; [extra_build] is the keyword [build] of
    [**extra], the only one the method reads. *)
Definition register_status (self : builder) (status : string)
    (transient init : bool) (extra_build : option record) : M unit :=
  py_assert (config_truthy self) "build_config needs to be specified first";;
  s ← get;
  let build_info := new_build_info self status transient s in
  log INFO (MsgRegistered build_info);;
  _cfg ← find_one self;
  '(build_info, _cfg) ←
    match extra_build with
    | Some extra =>
        let build_info := extra ∪ build_info in
        b ← lift (update_last _cfg build_info);
        replace_one self (Some b);;
        mret (build_info, Some b)
    | None => mret (build_info, _cfg)
    end;
  when init
    (push_build self build_info;;
     match _cfg with
     | None => raise (KeyError "build")
     | Some b =>
         when (bool_decide (max_build_status self < Z.of_nat (length b))%Z)
           (let howmany := (Z.of_nat (length b) - max_build_status self)%Z in
            repeatM (Z.to_nat howmany) (pop_build self))
     end).

(** [DataBuilder.init_mapper]; the caller has found [id_type] among the
    mappers or catches the [KeyError]. *)
Definition init_mapper (self : builder) (id_type : option string) : M unit :=
  when (negb (bool_decide (id_type ∈ id_mappers self)))
    (raise (KeyError (default "None" id_type)));;
  b ← ask (ENeedLoad id_type) (λ t, need_load env t id_type);
  when b
    (log INFO (MsgInitMapper id_type);;
     call (ELoad id_type)).

(** [DataBuilder.generate_document_query] *)
Definition generate_document_query (src_name : string) : value := VNone.

(** [DataBuilder.get_root_document_sources] *)
Definition get_root_document_sources (self : builder) : result value :=
  match _build_config self with
  | None => Raise (AttributeError "'NoneType' object has no attribute 'get'")
  | Some c =>
      Ok (default (VList []) (k ← doc_root_key self; c !! k))
  end.

(** [DataBuilder.get_mapper_for_source]: the key of the mapper found. *)
Definition get_mapper_for_source (self : builder) (src_name : string)
  : M (option string) :=
  docs ← ask EGetSrcMasterDocs (get_src_master_docs env);
  id_type ← match docs !! src_name with
            | Some d => mret d
            | None => raise (KeyError src_name)
            end;
  try_except
    (init_mapper self id_type;;
     log INFO (MsgFoundMapper id_type src_name);;
     mret id_type)
    (λ e, match e with KeyError _ => true | _ => false end)
    (λ _, raise (BuilderException
       ("Found id_type '" +:+ default "None" id_type
        +:+ "' but no mapper associated"))).

(** [DataBuilder.clean_document_to_merge] *)
Definition clean_document_to_merge (doc : record) : record := doc.

(** [DataBuilder.merge_source] *)
Definition merge_source (self : builder) (src_name : string) (batch_size : Z)
  : M (gmap string Z) :=
  mapper ← get_mapper_for_source self src_name;
  let _query := generate_document_query src_name in
  upsert ←
    match doc_root_key self with
    | None => mret true
    | Some _ =>
        roots ← lift (get_root_document_sources self);
        lift (py_contains (VStr src_name) roots)
    end;
  when (negb upsert) (log DEBUG (MsgUpdateOnly src_name));;
  s ← get;
  let '(batches, err) := doc_feeder env (st_events s) src_name batch_size in
  modify (add_event (EFeed src_name batch_size));;
  cnt ← foldM (λ cnt docs,
           docs ← ask (EProcess mapper docs) (λ t, process env t mapper docs);
           let newdocs := clean_document_to_merge <$> docs in
           n ← ask (EUpdate newdocs upsert) (λ t, update env t newdocs upsert);
           mret (cnt + n)%Z) 0%Z batches;
  match err with
  | Some e => raise e
  | None => mret {[ "total_" +:+ src_name := cnt ]}
  end.

(** The order in which [merge_sources] processes sources. *)
Definition merge_order (source_names roots : gset string) : list string :=
  let root_sources := py_list_of_set env (source_names ∩ roots) in
  let other_sources :=
    py_list_of_set env (source_names ∖ list_to_set root_sources) in
  root_sources ++ other_sources.

(** [DataBuilder.merge_sources] *)
Definition merge_sources (self : builder) (source_names : value) (batch_size : Z)
  : M (gmap string Z) :=
  names ← lift (py_set source_names);
  roots ← lift (get_root_document_sources self);
  roots ← lift (py_set roots);
  let source_names := merge_order names roots in
  log INFO (MsgMerging source_names);;
  _stats ← foldM (λ _stats '(i, src_name),
      let progress :=
        pretty (i + 1) +:+ "/" +:+ pretty (length source_names) in
      register_status self "success" true false
        (Some (<["step" := VStr src_name]>
              (<["progress" := VStr progress]> ∅)));;
      src_stats ← merge_source self src_name batch_size;
      mret (src_stats ∪ _stats))
    ∅ (zip (seq 0 (length source_names)) source_names);
  call EFinalize;;
  mret _stats.

(** The [finally] clause of [merge]. *)
Definition validate_count (self : builder) : M unit :=
  match _stats self with
  | None => mret ()
  | Some st =>
      if bool_decide (st = ∅) then mret ()
      else
        log INFO MsgValidating;;
        target_cnt ← ask ECount (count env);
        total ← match st !! "total_documents" with
                | Some n => mret n
                | None => raise (KeyError "total_documents")
                end;
        if bool_decide (target_cnt = total) then log INFO (MsgCountOk target_cnt)
        else
          expected ← match st !! "total_genes" with
                     | Some n => mret n
                     | None => raise (KeyError "total_genes")
                     end;
          log INFO (MsgCountMismatch target_cnt expected)
  end.

(** The [try] block of [merge]. *)
Definition merge_try (self : builder) (sources : value) (batch_size : Z)
  : M unit :=
  register_status self "building" true true
    (Some (<["step" := VStr "init"]> (<["sources" := sources]> ∅)));;
  _stats ←
    (if parallel_engine self then
       if truthy sources then
         raise (TypeError "'NotImplementedType' object is not callable")
       else raise (NotImplementedError "not yet")
     else merge_sources self sources batch_size);
  call EPostMerge;;
  _src_versions ← ask EGetSrcVersions (get_src_versions env);
  register_status self "success" false false
    (Some (<["stats" := VCounts _stats]>
          (<["src_versions" := VVersions _src_versions]> ∅))).

(** The [except] clause of [merge]. *)
Definition merge_except (self : builder) (e : exn) : M unit :=
  log ERROR (MsgTraceback e);;
  register_status self "failed" false false
    (Some (<["err" := VStr (exn_repr e)]> ∅));;
  raise e.

(** [DataBuilder.merge] *)
Definition merge (self : builder) (sources target_name : value) (batch_size : Z)
  : M unit :=
  s ← get;
  modify (set_t0 (clock env (st_events s)));;
  sources ←
    match sources with
    | VNone =>
        call EDrop;;
        call EPrepare;;
        config_getitem self "sources"
    | VStr src => mret (VList [src])
    | _ => mret sources
    end;
  when (truthy target_name) (call (ESetTargetName target_name));;
  try_finally
    (try_except (merge_try self sources batch_size) caught_by_merge
       (merge_except self))
    (validate_count self).

(** [DataBuilder.merge_resume] *)
Definition merge_resume (self : builder) : M unit :=
  cfg ← find_one self;
  s ← get;
  match last (default [] cfg) with
  | None =>
      raise (ResumeException ("No build bound for configuration '"
                              +:+ st_name s +:+ "', can't resume"))
  | Some build =>
      let sources := default VNone (build !! "sources") in
      if negb (truthy sources) then raise (ResumeException "No 'sources' found")
      else
      let step := default VNone (build !! "step") in
      if negb (truthy step) then raise (ResumeException "No 'step' found")
      else
      b ← lift (py_contains step sources);
      if negb b then
        raise (ResumeException
                 ("Step '" +:+ py_str step
                  +:+ "' isn't part of sources used for the merge ('"
                  +:+ py_str sources +:+ "')"))
      else
      let target_name := default VNone (build !! "target_name") in
      if negb (truthy target_name) then
        raise (ResumeException "No target_name found")
      else
      let status := default (VStr "success") (build !! "status") in
      if negb (bool_decide (status = VStr "failed")) then
        raise (ResumeException "Nothing to resume")
      else
      sources ← lift (py_slice_from_index step sources);
      call (EValidateSources sources);;
      log INFO (MsgResuming build);;
      merge self sources target_name 100000
  end.

End methods.

(** *** Notions used to state the properties *)

(** The builder is bound to a configuration document that has an id. *)
Definition bound (self : builder) : Prop :=
  ∃ c, _build_config self = Some c ∧ is_Some (c !! "_id").

(** The root sources the configuration declares: the list under the
    root-document key; none when no key is set or the key is absent. *)
Definition root_decl (self : builder) : option (list string) :=
  match doc_root_key self with
  | None => Some []
  | Some k =>
      match _build_config self with
      | None => None
      | Some c =>
          match c !! k with
          | None => Some []
          | Some (VList l) => Some l
          | Some _ => None
          end
      end
  end.

(** The sources whose documents were read, in the order of the reads. *)
Definition fed (evs : list event) : list string :=
  omap (λ e, match e with EFeed src _ => Some src | _ => None end) evs.

(** The write modes handed to the target's [update], in order. *)
Definition upserts (evs : list event) : list bool :=
  omap (λ e, match e with EUpdate _ u => Some u | _ => None end) evs.

(** The field [k] of the [i]-th record of the persisted history. *)
Definition history_field (i : nat) (k : string) (s : state) : option value :=
  b ← st_build s; r ← b !! i; r !! k.

(** The messages the [finally] clause of [merge] logs. *)
Definition is_validation (m : message) : bool :=
  match m with
  | MsgValidating | MsgCountOk _ | MsgCountMismatch _ _ => true
  | _ => false
  end.

Definition validation_messages (l : list (level * message)) : list message :=
  filter (λ m, is_validation m) (l.*2).

(** A call that reads no source and writes nothing. *)
Definition quiet (e : event) : Prop :=
  match e with
  | EFeed _ _ | EUpdate _ _ => False
  | _ => True
  end.

(** Every run of [m] only adds calls, and the outcome [r] and the calls
    added [evs] satisfy [Q r evs]. *)
Definition traces {A : Type} (m : M A) (Q : result A → list event → Prop)
  : Prop :=
  ∀ s r s', m s = (r, s') → ∃ evs, st_events s' = st_events s ++ evs ∧ Q r evs.

(** Every run of [m] only adds calls that satisfy [I]. *)
Definition emits {A : Type} (I : event → Prop) (m : M A) : Prop :=
  traces m (λ _ evs, Forall I evs).

(** Every run of [m] leaves the persisted history as it was. *)
Definition keeps_build {A : Type} (m : M A) : Prop :=
  ∀ s r s', m s = (r, s') → st_build s' = st_build s.

(** *** A concrete setting

    The build of the end-to-end examples: sources [geneinfo] and [refseq],
    of which [refseq] is declared under the root-document key [root]. Every
    collaborator succeeds, each source holds one batch of one document and
    the target counts five documents. *)

Definition example_env : collaborators := {|
  py_list_of_set := elements;
  os_getpid := 42;
  clock := λ t, Z.of_nat (length t);
  timesofar := λ z, pretty z +:+ "s";
  respond := λ _ _, None;
  get_src_versions := λ _, Ok ∅;
  get_src_master_docs := λ _, Ok (<["geneinfo" := None]> (<["refseq" := None]> ∅));
  doc_feeder := λ _ _ _, ([[∅]], None);
  need_load := λ _ _, Ok false;
  process := λ _ _ docs, Ok docs;
  target_name := λ _, VStr "target";
  update := λ _ docs _, Ok (Z.of_nat (length docs));
  count := λ _, Ok 5%Z
|}.

Definition example_config : record :=
  <["_id" := VStr "example"]>
  (<["name" := VStr "example"]>
  (<["sources" := VList ["geneinfo"; "refseq"]]>
  (<["root" := VList ["refseq"]]> ∅))).

Definition example_builder (max : Z) (stats : option (gmap string Z)) : builder := {|
  build_name := "example";
  doc_root_key := Some "root";
  parallel_engine := false;
  max_build_status := max;
  id_mappers := [None];
  _build_config := Some example_config;
  logfile := VStr "example_build.log";
  target_backend_name := "mongo";
  _stats := stats
|}.

(** The same setting, except that reading [geneinfo] fails. *)
Definition failing_env : collaborators := {|
  py_list_of_set := py_list_of_set example_env;
  os_getpid := os_getpid example_env;
  clock := clock example_env;
  timesofar := timesofar example_env;
  respond := respond example_env;
  get_src_versions := get_src_versions example_env;
  get_src_master_docs := get_src_master_docs example_env;
  doc_feeder := λ _ src _,
    if decide (src = "geneinfo") then ([], Some (OtherException "IOError" "read failed"))
    else ([[∅]], None);
  need_load := need_load example_env;
  process := process example_env;
  target_name := target_name example_env;
  update := update example_env;
  count := count example_env
|}.

(** The builder of the example with a parallel engine. *)
Definition parallel_builder : builder := {|
  build_name := "example";
  doc_root_key := Some "root";
  parallel_engine := true;
  max_build_status := 10;
  id_mappers := [None];
  _build_config := Some example_config;
  logfile := VStr "example_build.log";
  target_backend_name := "mongo";
  _stats := None
|}.

(** The persisted document with the history [b], before any call. *)
Definition example_state (b : list record) : state :=
  {| st_name := "example"; st_build := Some b; st_events := [];
     st_log := []; st_t0 := 0 |}.

(** A terminal record of an earlier attempt. *)
Definition finished_record (status step : string) : record :=
  <["status" := VStr status]>
  (<["step" := VStr step]>
  (<["sources" := VList ["geneinfo"; "refseq"]]>
  (<["target_name" := VStr "target"]> ∅))).

(** *** Read accessors *)

(** [_cfg['build'][-1]] *)
Definition last_record (_cfg : option (list record)) : result record :=
  match _cfg with
  | None => Raise (KeyError "build")
  | Some b =>
      match last b with
      | None => Raise (IndexError "list index out of range")
      | Some r => Ok r
      end
  end.

(** [DataBuilder.get_last_src_build_stats]. [src_build] tells whether the
    attribute [src_build] is set (no method of the class sets it); when it
    is, it is taken to be the collection [source_backend.build]. The result
    [VNone] stands for [None]. *)
Definition get_last_src_build_stats (self : builder) (src_build : bool) : M value :=
  if src_build then
    _cfg ← find_one self;
    r ← lift (last_record _cfg);
    if bool_decide (default VNone (r !! "status") = VStr "success")
       && truthy (default VNone (r !! "stats"))
    then
      match r !! "stats" with
      | Some stats => mret stats
      | None => raise (KeyError "stats")
      end
    else mret VNone
  else mret VNone.

(** *** More notions used to state the properties *)

(** Every run of [m] keeps the property [J] of the persisted history. *)
Definition preserves_build {A : Type} (J : option (list record) → Prop)
    (m : M A) : Prop :=
  ∀ s r s', J (st_build s) → m s = (r, s') → J (st_build s').

(** The history has a last record, and that record satisfies [P]. *)
Definition last_has (P : record → Prop) (h : option (list record)) : Prop :=
  ∃ b r, h = Some (b ++ [r]) ∧ P r.

(** A record of an attempt on the sources [names]: it holds the source
    list, and its step is [init] or one of the sources. *)
Definition attempt_record (names : list string) (r : record) : Prop :=
  r !! "sources" = Some (VList names)
  ∧ ∃ st, r !! "step" = Some (VStr st) ∧ (st = "init" ∨ st ∈ names).

(** The batches handed to a mapper and those handed to the target. *)
Definition processed (evs : list event) : list (list record) :=
  omap (λ e, match e with EProcess _ docs => Some docs | _ => None end) evs.

Definition written (evs : list event) : list (list record) :=
  omap (λ e, match e with EUpdate docs _ => Some docs | _ => None end) evs.

(** No run of [m] returns: each one raises. *)
Definition never_returns {A : Type} (m : M A) : Prop :=
  ∀ s r s', m s = (r, s') → ∃ e, r = Raise e.

(** The calls of one pass of the loop of [merge_source]: the batch goes to
    the mapper and what the mapper returns goes to the target. *)
Definition batch_calls (mapper : option string) (upsert : bool)
    (docs newdocs : list record) : list event :=
  [EProcess mapper docs; EUpdate newdocs upsert].

(** The sources [merge] works on: the list of the configuration when none
    are given, a single name as a list of one. *)
Definition merge_sources_arg (self : builder) (sources : value) : option value :=
  match sources with
  | VNone => c ← _build_config self; c !! "sources"
  | VStr src => Some (VList [src])
  | _ => Some sources
  end.

(** The setting of the examples with a source backend that reports a
    version for [refseq]. *)
Definition versioned_env : collaborators := {|
  py_list_of_set := py_list_of_set example_env;
  os_getpid := os_getpid example_env;
  clock := clock example_env;
  timesofar := timesofar example_env;
  respond := respond example_env;
  get_src_versions := λ _, Ok (<["refseq" := "2016-10"]> ∅);
  get_src_master_docs := get_src_master_docs example_env;
  doc_feeder := doc_feeder example_env;
  need_load := need_load example_env;
  process := process example_env;
  target_name := target_name example_env;
  update := update example_env;
  count := count example_env
|}.

(** The calls that belong to the [try] block of [merge]: everything but
    the calls [merge] makes before it, the validation of [merge_resume] and
    the count of the [finally] clause. *)
Definition try_event (e : event) : Prop :=
  match e with
  | EDrop | EPrepare | ESetTargetName _ | EValidateSources _ | ECount => False
  | _ => True
  end.

End Builder.

(** * Properties

    First the record chain, then the builder. *)

(** ** Facts about record_chain.py *)

Module RecChainFacts.
Import RecChain.

(** *** Generators *)

Lemma gen_concat_finished {A B : Type} (f : A → list B * stop) (xs : list A) :
  (∀ x, x ∈ xs → (f x).2 = Finished) →
  ∃ ys, gen_concat f xs = (ys, Finished)
        ∧ ∀ y, y ∈ ys ↔ ∃ x, x ∈ xs ∧ y ∈ (f x).1.
Proof.
  induction xs as [|x xs IH]; intros Hfin.
  - exists []. split; [done|]. intros y. split; [by intros ?%elem_of_nil|].
    by intros (x & ?%elem_of_nil & _).
  - destruct IH as (zs & Hzs & Hspec).
    { intros y Hy. apply Hfin. by right. }
    simpl. pose proof (Hfin x ltac:(left)) as Hx.
    destruct (f x) as [ys st] eqn:Hfx; simpl in *; subst st.
    rewrite Hzs. eexists. split; [done|]. intros y.
    rewrite elem_of_app, Hspec. split.
    + intros [Hy|(x' & Hx' & Hy)].
      * exists x. rewrite Hfx. split; [by left|done].
      * exists x'. split; [by right|done].
    + intros (x' & [->|Hx']%elem_of_cons & Hy).
      * left. by rewrite Hfx in Hy.
      * right. eauto.
Qed.

Lemma gen_concat_fmap {A B C : Type} (f : B → list C * stop) (h : A → B)
    (xs : list A) :
  gen_concat f (h <$> xs) = gen_concat (λ x, f (h x)) xs.
Proof.
  induction xs as [|x xs IH]; csimpl; [done|]. by rewrite IH.
Qed.

(** *** The adjacency structure *)

Lemma succs_is_Some (g : digraph) (n : ident) :
  is_Some (succs g n) ↔ n ∈ nodes g.
Proof.
  unfold nodes. induction g as [|[k vs] g IH]; simpl.
  - split; [by intros [? ?]|by intros ?%elem_of_nil].
  - rewrite elem_of_cons. case_decide; subst.
    + split; [by left|eauto].
    + rewrite IH. split; [by right|]. by intros [?|?].
Qed.

Lemma succs_app (g1 g2 : digraph) (n : ident) :
  succs (g1 ++ g2) n =
  match succs g1 n with Some vs => Some vs | None => succs g2 n end.
Proof.
  induction g1 as [|[k vs] g1 IH]; simpl; [done|]. by case_decide.
Qed.

Lemma edge_add_node (g : digraph) (n a b : ident) :
  edge (add_node g n) a b ↔ edge g a b.
Proof.
  unfold add_node, edge. destruct (succs g n) eqn:Hn; [done|].
  setoid_rewrite succs_app. destruct (succs g a) eqn:Ha; [done|].
  simpl. case_decide; split; intros (vs & ? & Hb); simplify_eq.
  by apply elem_of_nil in Hb.
Qed.

Lemma succs_add_node_is_Some (g : digraph) (n m : ident) :
  is_Some (succs (add_node g n) m) ↔ m = n ∨ is_Some (succs g m).
Proof.
  unfold add_node. destruct (succs g n) eqn:Hn.
  - split; [by right|]. intros [->|?]; eauto.
  - rewrite succs_app. destruct (succs g m) eqn:Hm; simpl.
    + split; eauto.
    + case_decide; subst.
      * split; eauto.
      * split; [by intros [? ?]|]. intros [?|[? ?]]; done.
Qed.

Lemma succs_set_succs (g : digraph) (n m : ident) (vs : list ident) :
  succs (set_succs g n vs) m =
  if decide (n = m) then (λ _, vs) <$> succs g n else succs g m.
Proof.
  induction g as [|[k ws] g IH]; simpl.
  - by case_decide.
  - repeat (case_decide; simpl; subst); try done; by rewrite IH; case_decide.
Qed.

Lemma edge_add (g : digraph) (u v a b : ident) :
  edge (add g u v) a b ↔ edge g a b ∨ (a = u ∧ b = v).
Proof.
  unfold add, add_edge. cbv zeta.
  set (g1 := add_node (add_node (add_node g v) u) v).
  assert (Hg1 : ∀ x y, edge g1 x y ↔ edge g x y).
  { intros x y. unfold g1. by rewrite !edge_add_node. }
  assert (is_Some (succs g1 u)) as [vs Hvs].
  { unfold g1. rewrite !succs_add_node_is_Some. auto. }
  rewrite Hvs. case_decide as Hin.
  - rewrite Hg1. split; [auto|]. intros [Hab|[-> ->]]; [done|].
    apply Hg1. by exists vs.
  - rewrite <-Hg1. unfold edge. setoid_rewrite succs_set_succs.
    rewrite Hvs. simpl. split.
    + intros (ws & Hws & Hb). case_decide; simplify_eq; [|eauto].
      apply elem_of_app in Hb as [?|Hb]; [eauto|].
      apply list_elem_of_singleton in Hb as ->. eauto.
    + intros [(ws & Hws & Hb)|[-> ->]].
      * case_decide; simplify_eq; [|eauto].
        eexists. split; [done|]. apply elem_of_app. by left.
      * rewrite decide_True by done. eexists. split; [done|].
        apply elem_of_app. right. by apply list_elem_of_singleton.
Qed.

Lemma edge_foldl_add (ps : list (ident * ident)) (g : digraph) (a b : ident) :
  edge (foldl (λ acc p, add acc p.1 p.2) g ps) a b ↔ edge g a b ∨ (a, b) ∈ ps.
Proof.
  revert g. induction ps as [|[u v] ps IH]; intros g; simpl.
  - split; [auto|]. by intros [?|?%elem_of_nil].
  - rewrite IH, edge_add, elem_of_cons. split.
    + intros [[?|[-> ->]]|?]; auto.
    + intros [?|[[= -> ->]|?]]; auto.
Qed.

Lemma wf_add_node (g : digraph) (n : ident) : wf g → wf (add_node g n).
Proof.
  intros Hwf u v Huv%edge_add_node. apply succs_add_node_is_Some. right. eauto.
Qed.

Lemma succs_add_is_Some (g : digraph) (u v m : ident) :
  is_Some (succs (add g u v) m) ↔ m = u ∨ m = v ∨ is_Some (succs g m).
Proof.
  unfold add, add_edge. cbv zeta.
  set (g1 := add_node (add_node (add_node g v) u) v).
  assert (Hg1 : is_Some (succs g1 m) ↔ m = u ∨ m = v ∨ is_Some (succs g m)).
  { unfold g1. rewrite !succs_add_node_is_Some. tauto. }
  destruct (succs g1 u) as [vs|] eqn:Hvs; [|done].
  case_decide; [done|]. rewrite succs_set_succs, Hvs. simpl.
  case_decide; subst; [|done]. split; eauto.
Qed.

Lemma wf_add (g : digraph) (u v : ident) : wf g → wf (add g u v).
Proof.
  intros Hwf a b Hab. apply succs_add_is_Some.
  apply edge_add in Hab as [Hab|[-> ->]]; eauto.
Qed.

Lemma wf_nil : wf [].
Proof. by intros u v (vs & ? & _). Qed.

(** *** Termination and result of [find_leaf] on acyclic graphs *)

Lemma leaf_of_leaf (g : digraph) (n v : ident) :
  succs g n = Some [] → leaf_of g n v ↔ v = n.
Proof.
  intros Hn. split.
  - intros [Hr _]. apply rtc_inv in Hr as [?|(w & (vs & Hvs & Hw) & _)]; [done|].
    rewrite Hn in Hvs. simplify_eq. by apply elem_of_nil in Hw.
  - intros ->. by split.
Qed.

Lemma leaf_of_step (g : digraph) (n v w : ident) (ws : list ident) :
  succs g n = Some (w :: ws) →
  leaf_of g n v ↔ ∃ x, x ∈ w :: ws ∧ leaf_of g x v.
Proof.
  intros Hn. split.
  - intros [Hr Hv]. apply rtc_inv in Hr as [->|(x & (vs & Hvs & Hx) & Hr)].
    + rewrite Hn in Hv. done.
    + rewrite Hn in Hvs. simplify_eq. exists x. by split.
  - intros (x & Hx & Hr & Hv). split; [|done].
    eapply rtc_l; [|done]. by exists (w :: ws).
Qed.

Lemma find_leaf_S (fuel : nat) (g : digraph) (n : ident) :
  find_leaf (S fuel) g n =
  match succs g n with
  | None => ([], Raised (NetworkXError "nbunch is not a node or a sequence of nodes."))
  | Some [] => ([n], Finished)
  | Some vs => gen_concat (find_leaf fuel g) vs
  end.
Proof.
  simpl. unfold out_edges. destruct (succs g n) as [[|w ws]|]; [done| |done].
  change (Ok (pair n <$> w :: ws)) with (Ok ((n, w) :: (pair n <$> ws))).
  cbv iota. change ((n, w) :: (pair n <$> ws)) with (pair n <$> w :: ws).
  by rewrite gen_concat_fmap.
Qed.

(** [anc] lists the callers on the stack: distinct nodes that all reach
    [n]. A stack deeper than the number of nodes would repeat a node. *)
Lemma find_leaf_acyclic (g : digraph) :
  wf g → acyclic g →
  ∀ fuel n anc,
    is_Some (succs g n) →
    NoDup anc →
    (∀ a, a ∈ anc → a ∈ nodes g ∧ tc (edge g) a n) →
    length g < fuel + length anc →
    ∃ items, find_leaf fuel g n = (items, Finished)
             ∧ ∀ v, v ∈ items ↔ leaf_of g n v.
Proof.
  intros Hwf Hacyc. induction fuel as [|fuel IH]; intros n anc [vs Hn] Hnd Hanc Hlen.
  - exfalso. assert (length anc ≤ length (nodes g)) as Hle.
    { apply submseteq_length, NoDup_submseteq; [done|]. intros a Ha.
      by apply Hanc. }
    unfold nodes in Hle. rewrite length_fmap in Hle. simpl in Hlen. lia.
  - rewrite find_leaf_S, Hn. destruct vs as [|w ws].
    { eexists. split; [done|]. intros v.
      rewrite leaf_of_leaf by done. apply list_elem_of_singleton. }
    assert (Hsub : ∀ x, x ∈ w :: ws →
      ∃ items, find_leaf fuel g x = (items, Finished)
               ∧ ∀ v, v ∈ items ↔ leaf_of g x v).
    { intros x Hx. assert (edge g n x) as Hnx by (by exists (w :: ws)).
      apply (IH x (n :: anc)).
      - by eapply Hwf.
      - apply NoDup_cons. split; [|done]. intros Hin.
        destruct (Hanc n Hin) as [_ Hcyc]. by apply (Hacyc n).
      - intros a [->|Ha]%elem_of_cons.
        + split; [|by apply tc_once]. apply succs_is_Some. eauto.
        + destruct (Hanc a Ha) as [? ?]. split; [done|]. by eapply tc_r.
      - simpl. lia. }
    destruct (gen_concat_finished (find_leaf fuel g) (w :: ws))
      as (items & -> & Hitems).
    { intros x Hx. destruct (Hsub x Hx) as (items & -> & _). done. }
    exists items. split; [done|]. intros v.
    rewrite (leaf_of_step g n v w ws Hn), Hitems.
    split; intros (x & Hx & Hv); exists x; (split; [done|]);
      destruct (Hsub x Hx) as (its & Hit & Hspec); rewrite Hit in *;
      by apply Hspec.
Qed.

Lemma find_leaf_spec (g : digraph) (fuel : nat) (n : ident) :
  wf g → acyclic g → n ∈ nodes g → length g < fuel →
  ∃ items, find_leaf fuel g n = (items, Finished)
           ∧ ∀ v, v ∈ items ↔ leaf_of g n v.
Proof.
  intros Hwf Hacyc Hn Hlen. apply (find_leaf_acyclic g Hwf Hacyc fuel n []).
  - by apply succs_is_Some.
  - constructor.
  - by intros a ?%elem_of_nil.
  - simpl. lia.
Qed.

Lemma iter_spec (g : digraph) (fuel : nat) :
  wf g → acyclic g → length g < fuel →
  ∃ pairs, iter fuel g = (pairs, Finished)
           ∧ ∀ r l, (r, l) ∈ pairs ↔ r ∈ root_nodes g ∧ leaf_of g r l.
Proof.
  intros Hwf Hacyc Hlen. unfold iter.
  assert (Hroot : ∀ r, r ∈ root_nodes g →
    ∃ items, find_leaf fuel g r = (items, Finished)
             ∧ ∀ v, v ∈ items ↔ leaf_of g r v).
  { intros r Hr. apply find_leaf_spec; [done..| |done].
    unfold root_nodes in Hr. by apply list_elem_of_filter in Hr as [_ ?]. }
  destruct (gen_concat_finished
    (λ r, let '(ls, st) := find_leaf fuel g r in (pair r <$> ls, st))
    (root_nodes g)) as (pairs & -> & Hpairs).
  { intros r Hr. destruct (Hroot r Hr) as (items & -> & _). done. }
  exists pairs. split; [done|]. intros r l. rewrite Hpairs. split.
  - intros (r' & Hr' & Hin). destruct (Hroot r' Hr') as (items & Hit & Hspec).
    rewrite Hit in Hin. simpl in Hin.
    apply list_elem_of_fmap in Hin as (l' & [= -> ->] & Hl').
    split; [done|]. by apply Hspec.
  - intros [Hr Hl]. destruct (Hroot r Hr) as (items & Hit & Hspec).
    exists r. split; [done|]. rewrite Hit. simpl.
    apply list_elem_of_fmap. exists l. split; [done|]. by apply Hspec.
Qed.

(** A ranking that decreases along every edge excludes cycles. *)
Lemma acyclic_ranked (rk : ident → nat) (g : digraph) :
  Forall (λ kv, Forall (λ v, rk v < rk kv.1) kv.2) g → acyclic g.
Proof.
  intros Hrk.
  assert (Hedge : ∀ u v, edge g u v → rk v < rk u).
  { intros u v (vs & Hu & Hv). induction g as [|[k ws] g IH]; [done|].
    apply Forall_cons in Hrk as [Hk Hg]. simpl in Hu.
    case_decide; simplify_eq.
    - simpl in Hk. by eapply Forall_forall in Hk.
    - by apply IH. }
  assert (Htc : ∀ u v, tc (edge g) u v → rk v < rk u).
  { induction 1 as [u v Huv|u w v Huw _ IH].
    - by apply Hedge.
    - apply Hedge in Huw. lia. }
  intros n Hn%Htc. lia.
Qed.

Lemma edgeb_spec (g : digraph) (u v : ident) : edgeb g u v = true ↔ edge g u v.
Proof.
  unfold edgeb, edge. destruct (succs g u) as [vs|].
  - rewrite bool_decide_eq_true. split; [eauto|]. by intros (? & [= <-] & ?).
  - split; [done|]. by intros (? & ? & _).
Qed.

Lemma test_chain_wf : wf test_chain.
Proof.
  unfold test_chain. simpl. unfold add_root.
  repeat first [apply wf_add | apply wf_add_node]. apply wf_nil.
Qed.

Lemma test_chain_acyclic : acyclic test_chain.
Proof.
  apply (acyclic_ranked (λ n, match n with IInt z => Z.to_nat (9 - z) | _ => 0 end)).
  vm_compute. repeat constructor.
Qed.

(** What [lookup] computes when it is given a list that holds the id. *)
Lemma lookup_list_spec (g : digraph) (fuel : nat) (from_id to_id : ident) :
  wf g → acyclic g → from_id ∈ nodes g → length g < fuel →
  lookup fuel g (OList [from_id]) to_id
  = Some (Ok (bool_decide (to_id ∈ (find_leaf fuel g from_id).1)))
  ∧ (to_id ∈ (find_leaf fuel g from_id).1 ↔ leaf_of g from_id to_id).
Proof.
  intros Hwf Hacyc Hn Hlen.
  destruct (find_leaf_spec g fuel from_id Hwf Hacyc Hn Hlen) as (items & Hit & Hspec).
  unfold lookup, find_left. simpl. rewrite Hit. simpl. rewrite app_nil_r.
  split; [|done]. by case_decide; [rewrite bool_decide_eq_true_2|rewrite bool_decide_eq_false_2].
Qed.

(** C9, as amended: for a well-formed acyclic chain [B], [A += B] finishes
    and adds to [A] one edge from each root node of [B] (in-degree 0,
    out-degree 1) to each leaf that root reaches, keeping the edges of [A];
    inner edges of [B] are not copied. With a right operand that is not a
    chain the statement raises [TypeError] and leaves [A] as it was. *)
Theorem iadd_adds_root_leaf_pairs (fuel : nat) (A B : digraph) (o : pyobj) :
  wf B → acyclic B → length B < fuel →
  (∃ A', iadd fuel A (inl B) = (A', Finished)
         ∧ ∀ u v, edge A' u v ↔ edge A u v ∨ (u ∈ root_nodes B ∧ leaf_of B u v))
  ∧ iadd fuel A (inr o) = (A, Raised (TypeError "other is not of type RecChain")).
Proof.
  intros Hwf Hacyc Hlen. split; [|done].
  destruct (iter_spec B fuel Hwf Hacyc Hlen) as (pairs & Hit & Hspec).
  unfold iadd. rewrite Hit. eexists. split; [done|]. intros u v.
  by rewrite edge_foldl_add, Hspec.
Qed.

Lemma iadd_adds_root_leaf_pairs_witness :
  wf test_chain ∧ acyclic test_chain ∧ length test_chain < 10
  ∧ (∃ A', iadd 10 [] (inl test_chain) = (A', Finished)
           ∧ ∀ u v, edge A' u v
                    ↔ edge [] u v
                      ∨ (u ∈ root_nodes test_chain ∧ leaf_of test_chain u v))
  ∧ iadd 10 [] (inr (OId (IInt 1)))
    = ([], Raised (TypeError "other is not of type RecChain")).
Proof.
  split; [exact test_chain_wf|]. split; [exact test_chain_acyclic|].
  split; [vm_compute; lia|].
  apply (iadd_adds_root_leaf_pairs 10 [] test_chain (OId (IInt 1))).
  - exact test_chain_wf.
  - exact test_chain_acyclic.
  - vm_compute. lia.
Defined.

(** C9, as stated, fails: after [A += B] with [A] empty and [B] the chain
    of the test, the edge 1→2 of [B] is not an edge of [A]. *)
Lemma iadd_drops_inner_edges :
  ∃ A', iadd 10 [] (inl test_chain) = (A', Finished)
        ∧ edge test_chain (IInt 1) (IInt 2)
        ∧ ¬ edge A' (IInt 1) (IInt 2).
Proof.
  eexists. split; [vm_compute; reflexivity|]. split.
  - by apply edgeb_spec.
  - intros Hf%edgeb_spec. vm_compute in Hf. done.
Qed.

(** C10: [lookup] hands its first argument to [find_left], which iterates
    over it. With an integer id the call raises [TypeError], whatever the
    graph; in the chain of the test, 4 is a leaf that node 1 reaches (and
    [find_leaf] yields it), yet [lookup(1, 4)] does not return true. *)
Theorem lookup_single_id_raises :
  (∀ fuel g z to_id,
     lookup fuel g (OId (IInt z)) to_id
     = Some (Raise (TypeError "'int' object is not iterable")))
  ∧ IInt 1 ∈ nodes test_chain
  ∧ acyclic test_chain
  ∧ leaf_of test_chain (IInt 1) (IInt 4)
  ∧ find_leaf 10 test_chain (IInt 1) = ([IInt 4; IInt 5], Finished)
  ∧ lookup 10 test_chain (OId (IInt 1)) (IInt 4) ≠ Some (Ok true).
Proof.
  assert (Hnode : IInt 1 ∈ nodes test_chain).
  { apply succs_is_Some. vm_compute. by eexists. }
  assert (Hfind : find_leaf 10 test_chain (IInt 1) = ([IInt 4; IInt 5], Finished))
    by (vm_compute; reflexivity).
  split; [reflexivity|]. split; [exact Hnode|].
  split; [exact test_chain_acyclic|].
  split; [|split; [exact Hfind|vm_compute; discriminate]].
  destruct (find_leaf_spec test_chain 10 (IInt 1)) as (items & Hit & Hspec).
  - exact test_chain_wf.
  - exact test_chain_acyclic.
  - exact Hnode.
  - vm_compute. lia.
  - apply Hspec. rewrite Hfind in Hit. injection Hit as <-. left.
Qed.

End RecChainFacts.

(** ** Facts about builder.py *)

Module BuilderFacts.
Import Builder.

(** *** The monad *)

Lemma bind_inv {A B : Type} (m : M A) (f : A → M B) (s : state) r s' :
  (m ≫= f) s = (r, s') →
  (∃ a s1, m s = (Ok a, s1) ∧ f a s1 = (r, s'))
  ∨ (∃ e, m s = (Raise e, s') ∧ r = Raise e).
Proof.
  unfold mbind, M_bind. destruct (m s) as [[a|e] s1]; intros H.
  - left. eauto.
  - right. simplify_eq. eauto.
Qed.

Lemma bind_ok {A B : Type} (m : M A) (f : A → M B) (s s1 : state) (a : A) :
  m s = (Ok a, s1) → (m ≫= f) s = f a s1.
Proof. unfold mbind, M_bind. by intros ->. Qed.

Lemma bind_raise {A B : Type} (m : M A) (f : A → M B) (s s1 : state) (e : exn) :
  m s = (Raise e, s1) → (m ≫= f) s = (Raise e, s1).
Proof. unfold mbind, M_bind. by intros ->. Qed.

Section facts.

Variable env : collaborators.

(** *** The persisted history *)

Lemma config_getitem_id (self : builder) (s : state) :
  bound self → ∃ v, config_getitem self "_id" s = (Ok v, s).
Proof.
  intros (c & Hc & [v Hv]). exists v. unfold config_getitem. by rewrite Hc, Hv.
Qed.

Lemma config_truthy_bound (self : builder) :
  bound self → config_truthy self = true.
Proof.
  intros (c & Hc & [v Hv]). unfold config_truthy. rewrite Hc.
  rewrite bool_decide_eq_false_2; [done|]. intros ->. by rewrite lookup_empty in Hv.
Qed.

Lemma find_one_eq (self : builder) (s : state) :
  bound self → find_one self s = (Ok (st_build s), s).
Proof.
  intros Hb. unfold find_one, get, mbind, M_bind, mret, M_ret.
  by destruct (config_getitem_id self s Hb) as [v ->].
Qed.

Lemma replace_one_eq (self : builder) (b : option (list record)) (s : state) :
  bound self → replace_one self b s = (Ok (), set_build b s).
Proof.
  intros Hb. unfold replace_one, modify, mbind, M_bind.
  by destruct (config_getitem_id self s Hb) as [v ->].
Qed.

Lemma push_build_eq (self : builder) (r : record) (s : state) :
  bound self →
  push_build self r s
  = (Ok (), set_build (Some (default [] (st_build s) ++ [r])) s).
Proof.
  intros Hb. unfold push_build, modify, mbind, M_bind.
  by destruct (config_getitem_id self s Hb) as [v ->].
Qed.

Lemma pop_build_eq (self : builder) (s : state) :
  bound self → pop_build self s = (Ok (), set_build (tail <$> st_build s) s).
Proof.
  intros Hb. unfold pop_build, modify, mbind, M_bind.
  by destruct (config_getitem_id self s Hb) as [v ->].
Qed.

Lemma repeatM_pop_build (self : builder) (n : nat) (s : state) :
  bound self →
  repeatM n (pop_build self) s = (Ok (), set_build (drop n <$> st_build s) s).
Proof.
  intros Hb. revert s. induction n as [|n IH]; intros s.
  - simpl. destruct s as [? [b|] ? ? ?]; unfold set_build; simpl; by rewrite ?drop_0.
  - cbn [repeatM]. erewrite bind_ok by by apply pop_build_eq.
    rewrite IH. unfold set_build. simpl. f_equal. f_equal.
    destruct (st_build s) as [[|r b]|]; simpl; by rewrite ?drop_nil.
Qed.

(** What [register_status] does to a history [b]: the record it writes and
    the history it leaves. *)
Lemma register_status_init_plain (self : builder) (status : string)
    (transient : bool) (s : state) (b : list record) :
  bound self → st_build s = Some b →
  let info := new_build_info env self status transient s in
  let howmany := Z.to_nat (Z.of_nat (length b) - max_build_status self) in
  register_status env self status transient true None s
  = (Ok (), set_build (Some (drop howmany (b ++ [info])))
              (add_log INFO (MsgRegistered info) s)).
Proof.
  intros Hb Hs info howmany. unfold register_status.
  rewrite (config_truthy_bound self Hb). fold info.
  erewrite bind_ok by done. erewrite bind_ok by done.
  erewrite bind_ok by done.
  erewrite bind_ok by by apply find_one_eq.
  erewrite bind_ok by done. cbn [st_build add_log when].
  erewrite bind_ok by by apply push_build_eq. rewrite Hs.
  unfold when, howmany. case_bool_decide as Hmax.
  - rewrite repeatM_pop_build by done. cbn. rewrite Hs. done.
  - cbn. rewrite Hs. replace (Z.to_nat _) with 0 by lia. done.
Qed.

Lemma register_status_extra (self : builder) (status : string)
    (transient init : bool) (extra : record) (s : state)
    (b : list record) (r : record) :
  bound self → st_build s = Some b → last b = Some r →
  let info := extra ∪ new_build_info env self status transient s in
  let b' := removelast b ++ [info ∪ r] in
  let howmany := Z.to_nat (Z.of_nat (length b) - max_build_status self) in
  register_status env self status transient init (Some extra) s
  = (Ok (), set_build (Some (if init then drop howmany (b' ++ [info]) else b'))
              (add_log INFO (MsgRegistered (new_build_info env self status transient s)) s)).
Proof.
  intros Hb Hs Hr info b' howmany. unfold register_status.
  rewrite (config_truthy_bound self Hb).
  erewrite bind_ok by done. erewrite bind_ok by done.
  erewrite bind_ok by done.
  erewrite bind_ok by by apply find_one_eq.
  cbn [st_build add_log]. rewrite Hs. unfold update_last. rewrite Hr.
  fold info. fold b'.
  erewrite bind_ok.
  2:{ erewrite bind_ok by done. erewrite bind_ok by by apply replace_one_eq. done. }
  assert (length b' = length b) as Hlen.
  { unfold b'. rewrite length_app. simpl.
    destruct b as [|x b] using rev_ind; [done|].
    rewrite removelast_last, length_app. done. }
  destruct init; [|done]. unfold when at 1.
  erewrite bind_ok by by apply push_build_eq.
  unfold when, howmany. rewrite Hlen. case_bool_decide as Hmax.
  - rewrite repeatM_pop_build by done. done.
  - cbn. replace (Z.to_nat _) with 0 by lia. done.
Qed.

Lemma register_status_extra_empty (self : builder) (status : string)
    (transient init : bool) (extra : record) (s : state) :
  bound self → st_build s = Some [] →
  register_status env self status transient init (Some extra) s
  = (Raise (IndexError "list index out of range"),
     add_log INFO (MsgRegistered (new_build_info env self status transient s)) s).
Proof.
  intros Hb Hs. unfold register_status.
  rewrite (config_truthy_bound self Hb).
  erewrite bind_ok by done. erewrite bind_ok by done.
  erewrite bind_ok by done.
  erewrite bind_ok by by apply find_one_eq.
  cbn [st_build add_log]. rewrite Hs. done.
Qed.

(** *** Rules for the calls a computation adds *)

Lemma traces_mono {A : Type} (m : M A) (Q Q' : result A → list event → Prop) :
  traces m Q → (∀ r evs, Q r evs → Q' r evs) → traces m Q'.
Proof.
  intros Hm HQ s r s' Hrun. destruct (Hm s r s' Hrun) as (evs & ? & ?). eauto.
Qed.

Lemma traces_bind {A B : Type} (m : M A) (f : A → M B)
    (Q1 : result A → list event → Prop) (Q2 : A → result B → list event → Prop)
    (Q : result B → list event → Prop) :
  traces m Q1 → (∀ a, traces (f a) (Q2 a)) →
  (∀ e evs, Q1 (Raise e) evs → Q (Raise e) evs) →
  (∀ a evs1 r evs2, Q1 (Ok a) evs1 → Q2 a r evs2 → Q r (evs1 ++ evs2)) →
  traces (m ≫= f) Q.
Proof.
  intros Hm Hf Hraise Hseq s r s' Hrun.
  apply bind_inv in Hrun as [(a & s1 & Hm1 & Hf1)|(e & Hm1 & ->)].
  - destruct (Hm _ _ _ Hm1) as (evs1 & He1 & HQ1).
    destruct (Hf a _ _ _ Hf1) as (evs2 & He2 & HQ2).
    exists (evs1 ++ evs2). rewrite He2, He1, (assoc_L (++)). eauto.
  - destruct (Hm _ _ _ Hm1) as (evs1 & He1 & HQ1). eauto.
Qed.

Lemma traces_pure {A : Type} (m : M A) (Q : result A → list event → Prop) :
  (∀ s r s', m s = (r, s') → st_events s' = st_events s ∧ Q r []) →
  traces m Q.
Proof.
  intros Hm s r s' Hrun. destruct (Hm s r s' Hrun) as [He HQ].
  exists []. by rewrite app_nil_r.
Qed.

Section emits.

Context (I : event → Prop).

Lemma emits_pure {A : Type} (m : M A) :
  (∀ s r s', m s = (r, s') → st_events s' = st_events s) → emits I m.
Proof. intros Hm. apply traces_pure. intros s r s' Hrun. split; eauto. Qed.

Lemma emits_ret {A : Type} (a : A) : emits I (mret a : M A).
Proof. apply emits_pure. by intros s r s' [= <- <-]. Qed.

Lemma emits_raise {A : Type} (e : exn) : emits I (raise e : M A).
Proof. apply emits_pure. by intros s r s' [= <- <-]. Qed.

Lemma emits_get : emits I get.
Proof. apply emits_pure. by intros s r s' [= <- <-]. Qed.

Lemma emits_lift {A : Type} (x : result A) : emits I (lift x).
Proof. apply emits_pure. by intros s r s' [= <- <-]. Qed.

Lemma emits_modify (f : state → state) :
  (∀ s, st_events (f s) = st_events s) → emits I (modify f).
Proof. intros Hf. apply emits_pure. intros s r s' [= <- <-]. apply Hf. Qed.

Lemma emits_log (l : level) (m : message) : emits I (log l m).
Proof. by apply emits_modify. Qed.

Lemma emits_bind {A B : Type} (m : M A) (f : A → M B) :
  emits I m → (∀ a, emits I (f a)) → emits I (m ≫= f).
Proof.
  intros Hm Hf. eapply traces_bind; [exact Hm|exact Hf|done|].
  intros a evs1 r evs2 H1 H2. by apply Forall_app.
Qed.

Lemma emits_when (b : bool) (m : M unit) : emits I m → emits I (when b m).
Proof. intros Hm. destruct b; [done|apply emits_ret]. Qed.

Lemma emits_py_assert (b : bool) (msg : string) : emits I (py_assert b msg).
Proof. destruct b; [apply emits_ret|apply emits_raise]. Qed.

Lemma emits_event (e : event) : I e → emits I (modify (add_event e)).
Proof.
  intros He s r s' [= <- <-]. exists [e]. split; [done|]. by apply Forall_singleton.
Qed.

Lemma emits_call (e : event) : I e → emits I (call env e).
Proof.
  intros He s r s' Hrun. exists [e]. unfold call in Hrun.
  split; [|by apply Forall_singleton].
  by destruct (respond env (st_events s) e); simplify_eq.
Qed.

Lemma emits_ask {A : Type} (e : event) (answer : list event → result A) :
  I e → emits I (ask e answer).
Proof.
  intros He s r s' [= <- <-]. exists [e]. split; [done|]. by apply Forall_singleton.
Qed.

Lemma emits_try_except {A : Type} (body : M A) (catches : exn → bool)
    (handler : exn → M A) :
  emits I body → (∀ e, emits I (handler e)) →
  emits I (try_except body catches handler).
Proof.
  intros Hb Hh s r s' Hrun. unfold try_except in Hrun.
  destruct (body s) as [[a|e] s1] eqn:Hbody.
  - simplify_eq. by eapply Hb.
  - destruct (Hb _ _ _ Hbody) as (evs1 & He1 & HI1).
    destruct (catches e); [|simplify_eq; eauto].
    destruct (Hh e _ _ _ Hrun) as (evs2 & He2 & HI2).
    exists (evs1 ++ evs2). rewrite He2, He1, (assoc_L (++)).
    split; [done|]. by apply Forall_app.
Qed.

Lemma emits_try_finally {A : Type} (body : M A) (fin : M unit) :
  emits I body → emits I fin → emits I (try_finally body fin).
Proof.
  intros Hb Hf s r s' Hrun. unfold try_finally in Hrun.
  destruct (body s) as [r1 s1] eqn:Hbody.
  destruct (fin s1) as [r2 s2] eqn:Hfin.
  destruct (Hb _ _ _ Hbody) as (evs1 & He1 & HI1).
  destruct (Hf _ _ _ Hfin) as (evs2 & He2 & HI2).
  exists (evs1 ++ evs2).
  assert (s' = s2) as -> by (by destruct r2; simplify_eq).
  rewrite He2, He1, (assoc_L (++)). split; [done|]. by apply Forall_app.
Qed.

Lemma emits_foldM {A B : Type} (f : B → A → M B) (xs : list A) (b : B) :
  (∀ b x, emits I (f b x)) → emits I (foldM f b xs).
Proof.
  intros Hf. revert b. induction xs as [|x xs IH]; intros b; simpl.
  - apply emits_ret.
  - apply emits_bind; [apply Hf|]. intros b'. apply IH.
Qed.

Lemma emits_repeatM (n : nat) (m : M unit) : emits I m → emits I (repeatM n m).
Proof.
  intros Hm. induction n as [|n IH]; simpl.
  - apply emits_ret.
  - apply emits_bind; [done|]. intros _. apply IH.
Qed.

Lemma emits_config_getitem (self : builder) (k : string) :
  emits I (config_getitem self k).
Proof.
  unfold config_getitem. destruct (_build_config self) as [c|]; [|apply emits_raise].
  destruct (c !! k); [apply emits_ret|apply emits_raise].
Qed.

(** [register_status] calls no collaborator. *)
Lemma emits_register_status (self : builder) (status : string)
    (transient init : bool) (extra : option record) :
  emits I (register_status env self status transient init extra).
Proof.
  unfold register_status, find_one, replace_one, push_build, pop_build.
  repeat first
    [ apply emits_bind; [|intros ?] | apply emits_py_assert | apply emits_get
    | apply emits_log | apply emits_config_getitem | apply emits_ret
    | apply emits_raise | apply emits_lift | apply emits_when
    | apply emits_repeatM | by apply emits_modify
    | match goal with
      | |- emits _ (match ?x with _ => _ end) => destruct x
      end ].
Qed.

End emits.

(** *** The calls of [merge_source] and [merge_sources] *)

Lemma emits_init_mapper (I : event → Prop) (self : builder) (id_type : option string) :
  I (ENeedLoad id_type) → I (ELoad id_type) → emits I (init_mapper env self id_type).
Proof.
  intros Hn Hl. unfold init_mapper.
  apply emits_bind; [apply emits_when, emits_raise|intros _].
  apply emits_bind; [by apply emits_ask|intros b].
  apply emits_when, emits_bind; [apply emits_log|intros _]. by apply emits_call.
Qed.

Lemma emits_get_mapper_for_source (I : event → Prop) (self : builder) (src : string) :
  I EGetSrcMasterDocs → (∀ m, I (ENeedLoad m)) → (∀ m, I (ELoad m)) →
  emits I (get_mapper_for_source env self src).
Proof.
  intros Hg Hn Hl. unfold get_mapper_for_source.
  apply emits_bind; [by apply emits_ask|intros docs].
  apply emits_bind.
  { destruct (docs !! src); [apply emits_ret|apply emits_raise]. }
  intros id_type. apply emits_try_except; [|intros _; apply emits_raise].
  apply emits_bind; [by apply emits_init_mapper|intros _].
  apply emits_bind; [apply emits_log|intros _]. apply emits_ret.
Qed.

Lemma fed_app (evs1 evs2 : list event) : fed (evs1 ++ evs2) = fed evs1 ++ fed evs2.
Proof. apply omap_app. Qed.

Lemma upserts_app (evs1 evs2 : list event) :
  upserts (evs1 ++ evs2) = upserts evs1 ++ upserts evs2.
Proof. apply omap_app. Qed.

Lemma quiet_fed (evs : list event) : Forall quiet evs → fed evs = [].
Proof.
  induction 1 as [|e evs He _ IH]; [done|].
  change (e :: evs) with ([e] ++ evs). rewrite fed_app, IH. by destruct e.
Qed.

Lemma quiet_upserts (evs : list event) : Forall quiet evs → upserts evs = [].
Proof.
  induction 1 as [|e evs He _ IH]; [done|].
  change (e :: evs) with ([e] ++ evs). rewrite upserts_app, IH. by destruct e.
Qed.

Lemma no_feed_fed (evs : list event) :
  Forall (λ e, ∀ src bs, e ≠ EFeed src bs) evs → fed evs = [].
Proof.
  induction 1 as [|e evs He _ IH]; [done|].
  change (e :: evs) with ([e] ++ evs). rewrite fed_app, IH.
  destruct e; try done. by destruct (He src_name batch_size).
Qed.

(** The write mode [merge_source] computes. *)
Lemma upsert_mode (self : builder) (src : string) (roots : list string)
    (s s1 : state) (upsert : bool) :
  root_decl self = Some roots →
  match doc_root_key self with
  | None => mret true
  | Some _ =>
      roots ← lift (get_root_document_sources self);
      lift (py_contains (VStr src) roots)
  end s = (Ok upsert, s1) →
  upsert = bool_decide (doc_root_key self = None) || bool_decide (src ∈ roots).
Proof.
  unfold root_decl, get_root_document_sources.
  destruct (doc_root_key self) as [k|]; [|by intros _ [= <- _]].
  destruct (_build_config self) as [c|]; [|done]. simpl.
  destruct (c !! k) as [[]|]; intros ? [= <- _]; by simplify_eq.
Qed.

Lemma upsert_state (self : builder) (src : string) (s s1 : state)
    (r : result bool) :
  match doc_root_key self with
  | None => mret true
  | Some _ =>
      roots ← lift (get_root_document_sources self);
      lift (py_contains (VStr src) roots)
  end s = (r, s1) →
  s1 = s.
Proof.
  destruct (doc_root_key self); [|by intros [= _ <-]].
  unfold mbind, M_bind, lift.
  destruct (get_root_document_sources self); by intros [= _ <-].
Qed.

Lemma traces_run {A : Type} (m : M A) (Q : result A → list event → Prop)
    (s s' : state) (r : result A) :
  traces m Q → m s = (r, s') →
  ∃ evs, st_events s' = st_events s ++ evs ∧ Q r evs.
Proof. intros Hm. apply Hm. Qed.

Lemma merge_source_traces (self : builder) (src : string) (bs : Z)
    (roots : list string) :
  root_decl self = Some roots →
  traces (merge_source env self src bs) (λ r evs,
    Forall (λ u, u = bool_decide (doc_root_key self = None)
                     || bool_decide (src ∈ roots)) (upserts evs)
    ∧ (fed evs = [] ∨ fed evs = [src])
    ∧ (∀ a, r = Ok a → fed evs = [src])).
Proof.
  intros Hroots. unfold merge_source.
  set (mode := bool_decide (doc_root_key self = None) || bool_decide (src ∈ roots)).
  set (Q := λ (r : result (gmap string Z)) evs,
         Forall (λ u, u = mode) (upserts evs)
         ∧ (fed evs = [] ∨ fed evs = [src])
         ∧ (∀ a, r = Ok a → fed evs = [src])).
  assert (HQraise : ∀ e evs, Forall quiet evs → Q (Raise e) evs).
  { intros e evs Hq. unfold Q.
    rewrite (quiet_upserts evs), (quiet_fed evs) by done.
    split; [constructor|]. split; [by left|done]. }
  assert (HQseq : ∀ evs1 r evs2, Forall quiet evs1 → Q r evs2 → Q r (evs1 ++ evs2)).
  { intros evs1 r evs2 Hq HQ. unfold Q.
    by rewrite upserts_app, fed_app, (quiet_upserts evs1), (quiet_fed evs1). }
  eapply traces_bind with (Q2 := λ _, Q).
  { apply (emits_get_mapper_for_source quiet); done. }
  2:{ intros e evs Hq. by apply HQraise. }
  2:{ intros mapper evs1 r evs2 Hq HQ. by apply HQseq. }
  intros mapper. cbv zeta.
  eapply traces_bind with
    (Q1 := λ r evs, evs = [] ∧ ∀ a, r = Ok a → a = mode)
    (Q2 := λ a r evs, a = mode → Q r evs).
  { intros s r s' Hrun. exists []. rewrite app_nil_r.
    rewrite (upsert_state _ _ _ _ _ Hrun). split; [done|]. split; [done|].
    intros a ->. by eapply upsert_mode. }
  2:{ intros e evs [-> _]. by apply HQraise. }
  2:{ intros a evs1 r evs2 [-> Ha] HQ. apply HQ. by apply Ha. }
  intros upsert.
  eapply traces_bind with (Q2 := λ _ r evs, upsert = mode → Q r evs).
  { apply (emits_when quiet), emits_log. }
  2:{ intros e evs Hq _. by apply HQraise. }
  2:{ intros [] evs1 r evs2 Hq HQ Hu. apply HQseq; auto. }
  intros _ s r s' Hrun.
  apply bind_inv in Hrun as [(s0 & s1 & [= <- <-] & Hrun)|(e & [=] & _)].
  destruct (doc_feeder env (st_events s) src bs) as [batches err].
  apply bind_inv in Hrun as [([] & s1 & [= <-] & Hrun)|(e & [=] & _)].
  set (I := λ e, match e with
                 | EFeed _ _ => False
                 | EUpdate _ u => u = upsert
                 | _ => True
                 end).
  eapply (traces_run _ (λ _ evs, Forall I evs)) in Hrun.
  2:{ apply (emits_bind I).
      - apply emits_foldM. intros cnt docs.
        apply emits_bind; [by apply emits_ask|intros docs'].
        apply emits_bind; [by apply emits_ask|intros n]. apply emits_ret.
      - intros cnt. destruct err; [apply emits_raise|apply emits_ret]. }
  destruct Hrun as (evs & Hevs & HI).
  exists (EFeed src bs :: evs). simpl in Hevs.
  rewrite Hevs, <-(assoc_L (++)). split; [done|]. intros Hu.
  assert (fed evs = [] ∧ Forall (λ u, u = upsert) (upserts evs)) as [Hfed Hups].
  { clear -HI. induction HI as [|e evs He _ [IH1 IH2]]; [by split|].
    change (e :: evs) with ([e] ++ evs). rewrite fed_app, upserts_app, IH1.
    destruct e; simpl in *; try done. split; [done|]. by constructor. }
  unfold Q. change (EFeed src bs :: evs) with ([EFeed src bs] ++ evs).
  rewrite fed_app, upserts_app, Hfed. subst upsert. simpl. auto.
Qed.

Lemma foldM_fed {A B : Type} (f : B → A → M B) (key : A → string)
    (xs : list A) (b : B) :
  (∀ b x, traces (f b x) (λ r evs,
     (fed evs = [] ∨ fed evs = [key x]) ∧ (∀ a, r = Ok a → fed evs = [key x]))) →
  traces (foldM f b xs) (λ r evs,
    fed evs `prefix_of` (key <$> xs) ∧ (∀ a, r = Ok a → fed evs = key <$> xs)).
Proof.
  intros Hf. revert b. induction xs as [|x xs IH]; intros b; simpl.
  - intros s r s' [= <- <-]. exists []. rewrite app_nil_r. by repeat split.
  - eapply traces_bind; [apply Hf|intros b'; apply IH| |].
    + intros e evs [[->| ->] _]; (split; [|done]).
      * apply prefix_nil.
      * by apply (prefix_app_r [key x] [key x] (key <$> xs)).
    + intros b' evs1 r evs2 [_ H1] [H2 H3]. rewrite fed_app, (H1 b') by done.
      split.
      * by apply (prefix_app [key x]).
      * intros a Ha. by rewrite (H3 a Ha).
Qed.

Lemma merge_order_spec (names roots : gset string) :
  set_order_ok env →
  ∃ rs os, merge_order env names roots = rs ++ os
           ∧ (∀ x, x ∈ rs ↔ x ∈ names ∧ x ∈ roots)
           ∧ (∀ x, x ∈ os ↔ x ∈ names ∧ x ∉ roots)
           ∧ NoDup (rs ++ os).
Proof.
  intros Hord. unfold merge_order. cbv zeta.
  set (rs := py_list_of_set env (names ∩ roots)).
  set (os := py_list_of_set env (names ∖ list_to_set rs)).
  assert (Hrs : ∀ x, x ∈ rs ↔ x ∈ names ∧ x ∈ roots).
  { intros x. unfold rs. rewrite (Hord _), elem_of_elements. set_solver. }
  assert (Hos : ∀ x, x ∈ os ↔ x ∈ names ∧ x ∉ roots).
  { intros x. unfold os. rewrite (Hord _), elem_of_elements.
    rewrite elem_of_difference, elem_of_list_to_set, Hrs. tauto. }
  exists rs, os. split; [done|]. split; [done|]. split; [done|].
  apply NoDup_app. split; [|split].
  - unfold rs. rewrite (Hord _). apply NoDup_elements.
  - intros x Hx%Hrs Hx'%Hos. tauto.
  - unfold os. rewrite (Hord _). apply NoDup_elements.
Qed.

Lemma root_decl_set (self : builder) (roots : list string) (v : value) :
  root_decl self = Some roots →
  get_root_document_sources self = Ok v →
  py_set v = Ok (list_to_set roots).
Proof.
  unfold root_decl, get_root_document_sources.
  destruct (_build_config self) as [c|]; [|by destruct (doc_root_key self)].
  destruct (doc_root_key self) as [k|]; simpl.
  - destruct (c !! k) as [[]|]; intros ? [= <-]; by simplify_eq.
  - by intros [= <-] [= <-].
Qed.

Lemma merge_sources_traces (self : builder) (names : list string) (bs : Z)
    (roots : list string) :
  root_decl self = Some roots →
  let order := merge_order env (list_to_set names) (list_to_set roots) in
  traces (merge_sources env self (VList names) bs) (λ r evs,
    fed evs `prefix_of` order ∧ (∀ a, r = Ok a → fed evs = order)).
Proof.
  intros Hroots order s r s' Hrun. unfold merge_sources in Hrun.
  assert (Hnil : ∀ e : exn,
    ∃ evs, st_events s = st_events s ++ evs
           ∧ fed evs `prefix_of` order
           ∧ (∀ a : gmap string Z, Raise e = Ok a → fed evs = order)).
  { intros e. exists []. rewrite app_nil_r. split; [done|].
    split; [apply prefix_nil|done]. }
  apply bind_inv in Hrun as [(nset & s1 & [= <- <-] & Hrun)|(e & [=] & _)].
  apply bind_inv in Hrun as [(v & s1 & [= Hv <-] & Hrun)|(e & [= _ <-] & ->)]; [|done].
  rewrite (root_decl_set self roots v Hroots Hv) in Hrun.
  apply bind_inv in Hrun as [(rset & s1 & [= <- <-] & Hrun)|(e & [=] & _)].
  cbv zeta in Hrun. fold order in Hrun.
  match type of Hrun with
  | ?m _ = _ =>
      enough (traces m (λ r evs,
        fed evs `prefix_of` order ∧ (∀ a, r = Ok a → fed evs = order))) as Ht
        by exact (Ht _ _ _ Hrun)
  end.
  clear Hrun Hnil Hv. clear s r s' v.
  eapply traces_bind with (Q2 := λ _ r evs,
    fed evs `prefix_of` order ∧ (∀ a, r = Ok a → fed evs = order)).
  { apply (emits_log quiet). }
  2:{ intros e evs Hq. simpl in Hq. rewrite (quiet_fed evs) by done.
      split; [apply prefix_nil|done]. }
  2:{ intros [] evs1 r evs2 Hq HQ. simpl in Hq.
      by rewrite fed_app, (quiet_fed evs1). }
  intros u.
  assert (Hsnd : (zip (seq 0 (length order)) order).*2 = order).
  { apply snd_zip. by rewrite length_seq. }
  eapply traces_bind.
  { apply (foldM_fed _ snd). intros b [i src].
    eapply traces_bind with
      (Q1 := λ _ evs, Forall quiet evs)
      (Q2 := λ _ r evs, (fed evs = [] ∨ fed evs = [src])
                        ∧ (∀ a, r = Ok a → fed evs = [src])).
    - apply (emits_register_status quiet).
    - intros ?. eapply traces_bind with (Q2 := λ _ _ evs, Forall quiet evs).
      + by apply (merge_source_traces self src bs roots).
      + intros src_stats. apply (emits_ret quiet).
      + intros e evs (_ & H2 & _). by split.
      + intros st evs1 r evs2 (_ & _ & H3) Hq.
        rewrite fed_app, (quiet_fed evs2), app_nil_r by done.
        rewrite (H3 st) by done. split; [by right|done].
    - intros e evs Hq. rewrite (quiet_fed evs) by done. split; [by left|done].
    - intros ? evs1 r evs2 Hq HQ. by rewrite fed_app, (quiet_fed evs1). }
  { intros _stats. apply (emits_bind quiet); [by apply emits_call|].
    intros ?. apply emits_ret. }
  - intros e evs [Hp _]. rewrite Hsnd in Hp. done.
  - intros a evs1 r evs2 [_ H1] Hq. simpl in Hq.
    rewrite Hsnd in H1. rewrite fed_app, (quiet_fed evs2), app_nil_r by done.
    rewrite (H1 a) by done. done.
Qed.

(** *** [merge_resume] *)

Lemma list_index_spec (x : string) (l : list string) :
  x ∈ l →
  ∃ i pre suf, list_index x l = Some i ∧ l = pre ++ (x :: suf)
               ∧ (x ∉ pre) ∧ drop i l = x :: suf.
Proof.
  induction l as [|y l IH]; [by intros ?%elem_of_nil|].
  intros Hin. simpl. case_decide as Hy.
  - subst y. exists 0, [], l. repeat split; try done. by intros ?%elem_of_nil.
  - apply elem_of_cons in Hin as [->|Hin]; [done|].
    destruct (IH Hin) as (i & pre & suf & Hi & Hl & Hpre & Hdrop).
    exists (S i), (y :: pre), suf. rewrite Hi. simpl.
    split; [done|]. split; [by rewrite Hl|]. split; [|done].
    by intros [?|?]%elem_of_cons.
Qed.

Lemma merge_resume_last (self : builder) (s : state) :
  bound self →
  merge_resume env self s
  = match last (default [] (st_build s)) with
    | None =>
        (Raise (ResumeException ("No build bound for configuration '"
                                 +:+ st_name s +:+ "', can't resume")), s)
    | Some build =>
        let sources := default VNone (build !! "sources") in
        if negb (truthy sources) then (Raise (ResumeException "No 'sources' found"), s)
        else
        let step := default VNone (build !! "step") in
        if negb (truthy step) then (Raise (ResumeException "No 'step' found"), s)
        else
        match py_contains step sources with
        | Raise e => (Raise e, s)
        | Ok false =>
            (Raise (ResumeException
                      ("Step '" +:+ py_str step
                       +:+ "' isn't part of sources used for the merge ('"
                       +:+ py_str sources +:+ "')")), s)
        | Ok true =>
            let target_name := default VNone (build !! "target_name") in
            if negb (truthy target_name) then
              (Raise (ResumeException "No target_name found"), s)
            else
            let status := default (VStr "success") (build !! "status") in
            if negb (bool_decide (status = VStr "failed")) then
              (Raise (ResumeException "Nothing to resume"), s)
            else
            match py_slice_from_index step sources with
            | Raise e => (Raise e, s)
            | Ok sources =>
                (call env (EValidateSources sources);;
                 log INFO (MsgResuming build);;
                 merge env self sources target_name 100000) s
            end
        end
    end.
Proof.
  intros Hb. unfold merge_resume.
  erewrite bind_ok by by apply find_one_eq.
  erewrite bind_ok by done.
  destruct (last (default [] (st_build s))) as [build|]; [|done]. cbv zeta.
  destruct (truthy (default VNone (build !! "sources"))); [|done].
  destruct (truthy (default VNone (build !! "step"))); [|done]. simpl negb. cbv iota.
  unfold mbind, M_bind, lift.
  destruct (py_contains _ _) as [[]|]; [|done..]. simpl negb. cbv iota.
  destruct (truthy (default VNone (build !! "target_name"))); [|done].
  simpl negb. cbv iota.
  destruct (bool_decide _); [|done]. simpl negb. cbv iota.
  by destruct (py_slice_from_index _ _).
Qed.

Lemma prefix_app_split {A : Type} (l rs0 os0 : list A) :
  l `prefix_of` rs0 ++ os0 →
  ∃ rs os, l = rs ++ os ∧ rs `prefix_of` rs0 ∧ os `prefix_of` os0.
Proof.
  revert l. induction rs0 as [|x rs0 IH]; intros l Hl.
  - exists [], l. by repeat split.
  - destruct l as [|y l].
    + exists [], []. repeat split; apply prefix_nil.
    + simpl in Hl. apply prefix_cons_inv_1 in Hl as Hxy. subst y.
      apply prefix_cons_inv_2 in Hl.
      destruct (IH l Hl) as (rs & os & -> & Hrs & Hos).
      exists (x :: rs), os. repeat split; [|done]. by apply prefix_cons.
Qed.

(** C3: whatever the order of the given list [names], the sources
    [merge_sources] reads are first declared root sources and then sources
    that are not; this holds for every run, also one that an exception cuts
    short. A run that returns has read each given source exactly once. *)
Theorem merge_sources_roots_first (self : builder) (names roots : list string)
    (bs : Z) (s s' : state) (r : result (gmap string Z)) :
  set_order_ok env →
  root_decl self = Some roots →
  merge_sources env self (VList names) bs s = (r, s') →
  ∃ evs rs os,
    st_events s' = st_events s ++ evs
    ∧ fed evs = rs ++ os
    ∧ Forall (λ x, x ∈ roots) rs
    ∧ Forall (λ x, x ∉ roots) os
    ∧ (∀ a, r = Ok a → NoDup (rs ++ os) ∧ ∀ x, x ∈ rs ++ os ↔ x ∈ names).
Proof.
  intros Hord Hroots Hrun.
  destruct (merge_sources_traces self names bs roots Hroots _ _ _ Hrun)
    as (evs & Hevs & Hpre & Hok).
  destruct (merge_order_spec (list_to_set names) (list_to_set roots) Hord)
    as (rs0 & os0 & Horder & Hrs0 & Hos0 & Hnd).
  rewrite Horder in Hpre, Hok.
  destruct (prefix_app_split _ _ _ Hpre) as (rs & os & Hfed & [k1 Hk1] & [k2 Hk2]).
  exists evs, rs, os. split; [done|]. split; [done|]. split; [|split].
  - apply Forall_forall. intros x Hx.
    assert (x ∈ rs0) as Hx0%Hrs0 by (rewrite Hk1, elem_of_app; by left).
    destruct Hx0 as [_ Hx0]. by apply elem_of_list_to_set in Hx0.
  - apply Forall_forall. intros x Hx.
    assert (x ∈ os0) as Hx0%Hos0 by (rewrite Hk2, elem_of_app; by left).
    destruct Hx0 as [_ Hx0]. by rewrite elem_of_list_to_set in Hx0.
  - intros a Ha. rewrite <-Hfed, (Hok a Ha). split; [done|].
    intros x. rewrite elem_of_app, Hrs0, Hos0, !elem_of_list_to_set.
    destruct (decide (x ∈ roots)); tauto.
Qed.

Lemma processed_app (evs1 evs2 : list event) :
  processed (evs1 ++ evs2) = processed evs1 ++ processed evs2.
Proof. unfold processed. by rewrite omap_app. Qed.

Lemma written_app (evs1 evs2 : list event) :
  written (evs1 ++ evs2) = written evs1 ++ written evs2.
Proof. unfold written. by rewrite omap_app. Qed.

(** The loop of [merge_source]: one pass per batch, in order; each pass
    hands the batch to the mapper and the mapper's result to the target,
    with the write mode of the source. *)
Lemma merge_source_loop (mapper : option string) (upsert : bool)
    (batches : list (list record)) (cnt : Z) (s s' : state) (r : result Z) :
  foldM (λ cnt docs,
           docs ← ask (EProcess mapper docs) (λ t, process env t mapper docs);
           let newdocs := clean_document_to_merge <$> docs in
           n ← ask (EUpdate newdocs upsert) (λ t, update env t newdocs upsert);
           mret (cnt + n)%Z) cnt batches s = (r, s') →
  ∃ post,
    st_events s' = st_events s ++ post
    ∧ processed post `prefix_of` batches
    ∧ length (written post) ≤ length (processed post)
    ∧ (∀ docs u, EUpdate docs u ∈ post → u = upsert)
    ∧ (∀ a, r = Ok a →
         ∃ news,
           Forall2 (λ docs new, ∃ t, process env t mapper docs = Ok new)
             batches news
           ∧ post = mjoin (zip_with (batch_calls mapper upsert) batches news)).
Proof.
  revert cnt s. induction batches as [|docs batches IH]; intros cnt s Hrun.
  - injection Hrun as <- <-. exists []. rewrite app_nil_r.
    split; [done|]. split; [done|]. split; [done|]. split.
    + by intros ?? ?%elem_of_nil.
    + intros a _. exists []. by split; [constructor|].
  - cbn [foldM] in Hrun.
    apply bind_inv in Hrun as [(cnt' & s1 & Hbody & Hrun)|(e & Hbody & ->)].
    + apply bind_inv in Hbody as [(docs' & u1 & [= Hp <-] & Hbody)|(e & _ & [=])].
      cbv zeta in Hbody.
      apply bind_inv in Hbody as [(n & u2 & [= Hu <-] & [= <- <-])|(e & _ & [=])].
      destruct (IH _ _ Hrun) as (post & Hev & Hpre & Hlen & Hmode & Hok).
      exists (batch_calls mapper upsert docs (clean_document_to_merge <$> docs')
              ++ post).
      split; [|split; [|split; [|split]]].
      * rewrite Hev. simpl. by rewrite <-!(assoc_L (++)).
      * rewrite processed_app. simpl. by apply prefix_cons.
      * rewrite processed_app, written_app. simpl. lia.
      * intros d u [Hin|Hin]%elem_of_app; [|by eapply Hmode].
        apply elem_of_cons in Hin as [[=]|Hin].
        apply list_elem_of_singleton in Hin. by injection Hin as _ ->.
      * intros a Ha. destruct (Hok a Ha) as (news & Hnews & ->).
        exists ((clean_document_to_merge <$> docs') :: news). split; [|done].
        constructor; [|done]. exists (st_events s).
        unfold clean_document_to_merge. by rewrite list_fmap_id.
    + apply bind_inv in Hbody as [(docs' & u1 & [= Hp <-] & Hbody)|(e' & [= Hp <-] & _)].
      * cbv zeta in Hbody.
        apply bind_inv in Hbody as [(n & u2 & _ & [=])|(e' & [= Hu <-] & _)].
        exists (batch_calls mapper upsert docs (clean_document_to_merge <$> docs')).
        split; [|split; [|split; [|split]]].
        -- simpl. by rewrite <-!(assoc_L (++)).
        -- simpl. apply prefix_cons, prefix_nil.
        -- done.
        -- intros d u Hin. apply elem_of_cons in Hin as [[=]|Hin].
           apply list_elem_of_singleton in Hin. by injection Hin as _ ->.
        -- done.
      * exists [EProcess mapper docs].
        split; [done|]. split; [apply prefix_cons, prefix_nil|].
        split; [simpl; lia|]. split; [|done].
        intros d u Hin. by apply list_elem_of_singleton in Hin.
Qed.

(** C8: a run of [merge_source] that gets as far as reading the source
    hands every batch the source feeds to the mapper, in order, and each
    result of the mapper to the target's [update]; every such write is an
    upsert exactly when no root-document key is set or the source is a
    declared root source, and update-only otherwise. A run that returns has
    written one batch per batch fed; a run that fails before the read
    writes nothing. *)
Theorem merge_source_upsert (self : builder) (src : string)
    (roots : list string) (bs : Z) (s s' : state) (r : result (gmap string Z)) :
  root_decl self = Some roots →
  merge_source env self src bs s = (r, s') →
  (∃ e evs, r = Raise e ∧ st_events s' = st_events s ++ evs ∧ Forall quiet evs)
  ∨ ∃ mapper upsert pre post batches err,
      (upsert = true ↔ doc_root_key self = None ∨ src ∈ roots)
      ∧ st_events s' = st_events s ++ pre ++ EFeed src bs :: post
      ∧ Forall quiet pre
      ∧ doc_feeder env (st_events s ++ pre) src bs = (batches, err)
      ∧ processed post `prefix_of` batches
      ∧ length (written post) ≤ length (processed post)
      ∧ (∀ docs u, EUpdate docs u ∈ post → u = upsert)
      ∧ (∀ a, r = Ok a →
           err = None
           ∧ ∃ news,
               Forall2 (λ docs new, ∃ t, process env t mapper docs = Ok new)
                 batches news
               ∧ post = mjoin (zip_with (batch_calls mapper upsert) batches news)).
Proof.
  intros Hroots Hrun. unfold merge_source in Hrun.
  apply bind_inv in Hrun as [(mapper & s1 & Hmap & Hrun)|(e & Hmap & ->)].
  2:{ left. destruct (emits_get_mapper_for_source quiet self src
                        I (λ _, I) (λ _, I) _ _ _ Hmap) as (evs & Hevs & Hq).
      by exists e, evs. }
  destruct (emits_get_mapper_for_source quiet self src
              I (λ _, I) (λ _, I) _ _ _ Hmap) as (pre & Hpre & Hq).
  cbv zeta in Hrun.
  apply bind_inv in Hrun as [(upsert & s2 & Hup & Hrun)|(e & Hup & ->)].
  2:{ left. apply upsert_state in Hup as ->. by exists e, pre. }
  pose proof (upsert_state _ _ _ _ _ Hup) as ->.
  apply (upsert_mode self src roots) in Hup; [|done].
  apply bind_inv in Hrun as [([] & s3 & Hlog & Hrun)|(e & Hlog & ->)].
  2:{ by destruct (negb upsert). }
  assert (st_events s3 = st_events s1) as Hs3.
  { destruct (negb upsert); by injection Hlog as <-. }
  apply bind_inv in Hrun as [(s4 & s5 & [= <- <-] & Hrun)|(e & [=] & _)].
  destruct (doc_feeder env (st_events s3) src bs) as [batches err] eqn:Hfeed.
  apply bind_inv in Hrun as [([] & s6 & [= <-] & Hrun)|(e & [=] & _)].
  right.
  assert (∃ rc sc,
            foldM (λ cnt docs,
                     docs ← ask (EProcess mapper docs) (λ t, process env t mapper docs);
                     let newdocs := clean_document_to_merge <$> docs in
                     n ← ask (EUpdate newdocs upsert)
                           (λ t, update env t newdocs upsert);
                     mret (cnt + n)%Z) 0%Z batches (add_event (EFeed src bs) s3)
            = (rc, sc)
            ∧ st_events s' = st_events sc
            ∧ (∀ a, r = Ok a → err = None ∧ ∃ c, rc = Ok c))
    as (rc & sc & Hloop & Hsc & Hret).
  { apply bind_inv in Hrun as [(c & sc & Hloop & Hrun)|(e & Hloop & ->)].
    - exists (Ok c), sc. split; [done|].
      destruct err; injection Hrun as <- <-; (split; [done|]); [done|].
      intros a _. eauto.
    - exists (Raise e), s'. by split. }
  apply merge_source_loop in Hloop as (post & Hev & Hpfx & Hlen & Hmode & Hok).
  exists mapper, upsert, pre, post, batches, err.
  split. { rewrite Hup, orb_true_iff, !bool_decide_eq_true. done. }
  split. { rewrite Hsc, Hev. simpl. rewrite Hs3, Hpre. by rewrite <-!(assoc_L (++)). }
  split; [done|]. split. { by rewrite <-Hpre, <-Hs3. }
  split; [done|]. split; [done|]. split; [done|].
  intros a Ha. destruct (Hret a Ha) as (-> & c & ->). split; [done|]. by eapply Hok.
Qed.

(** C2: [merge_resume] refuses with a [ResumeException] of its own text when
    the history is empty, when the last record has no (or an empty)
    [sources], no [step], a [step] that is not in [sources], no
    [target_name], or a status other than [failed] (or none); the state
    is left as it was and the six texts differ pairwise. *)
Theorem merge_resume_refuses (self : builder) (s : state) :
  bound self →
  let refuse msg := merge_resume env self s = (Raise (ResumeException msg), s) in
  (default [] (st_build s) = [] →
     refuse ("No build bound for configuration '" +:+ st_name s
             +:+ "', can't resume"))
  ∧ (∀ build, last (default [] (st_build s)) = Some build →
       (truthy (default VNone (build !! "sources")) = false →
          refuse "No 'sources' found")
       ∧ (truthy (default VNone (build !! "sources")) = true →
          truthy (default VNone (build !! "step")) = false →
          refuse "No 'step' found")
       ∧ (∀ l st, build !! "sources" = Some (VList l) →
            build !! "step" = Some (VStr st) → st ≠ EmptyString →
            (l ≠ [] → st ∉ l →
               refuse ("Step '" +:+ st
                       +:+ "' isn't part of sources used for the merge ('"
                       +:+ py_str (VList l) +:+ "')"))
            ∧ (st ∈ l →
               truthy (default VNone (build !! "target_name")) = false →
               refuse "No target_name found")
            ∧ (st ∈ l →
               truthy (default VNone (build !! "target_name")) = true →
               build !! "status" ≠ Some (VStr "failed") →
               refuse "Nothing to resume")))
  ∧ (∀ name st l,
       NoDup [ "No build bound for configuration '" +:+ name +:+ "', can't resume";
               "No 'sources' found";
               "No 'step' found";
               "Step '" +:+ st +:+ "' isn't part of sources used for the merge ('"
                 +:+ l +:+ "')";
               "No target_name found";
               "Nothing to resume" ]).
Proof.
  intros Hb refuse. unfold refuse. rewrite (merge_resume_last self s Hb).
  split; [|split].
  - intros ->. done.
  - intros build ->. cbv zeta. split; [by intros ->|]. split; [by intros -> ->|].
    intros l st -> -> Hst. simpl default.
    assert (truthy (VStr st) = true) as ->.
    { simpl. by rewrite bool_decide_eq_false_2. }
    split; [|split].
    + intros Hl Hin. simpl. rewrite (bool_decide_eq_false_2 (l = [])) by done.
      simpl. by rewrite (bool_decide_eq_false_2 (st ∈ l)).
    + intros Hin Ht. assert (l ≠ []) as Hl by (by intros ->; apply elem_of_nil in Hin).
      simpl. rewrite (bool_decide_eq_false_2 (l = [])) by done.
      simpl. rewrite (bool_decide_eq_true_2 (st ∈ l)) by done. by rewrite Ht.
    + intros Hin Ht Hstatus.
      assert (l ≠ []) as Hl by (by intros ->; apply elem_of_nil in Hin).
      simpl. rewrite (bool_decide_eq_false_2 (l = [])) by done.
      simpl. rewrite (bool_decide_eq_true_2 (st ∈ l)) by done. rewrite Ht.
      simpl. rewrite bool_decide_eq_false_2; [done|].
      destruct (build !! "status"); simpl; congruence.
  - intros name st l.
    repeat (apply NoDup_cons; split;
      [rewrite ?elem_of_cons, elem_of_nil; simpl; intros H;
       repeat (destruct H as [H|H]; try discriminate H); done|]).
    constructor.
Qed.

(** C7: when the last record is a failed one with a [sources] list, a
    [step] in that list and a target name, [merge_resume] validates the part
    of [sources] from the first occurrence of [step] on, [step] included,
    and then runs [merge] on that part with the recorded target name. *)
Theorem merge_resume_resumes (self : builder) (s : state) (b : list record)
    (build : record) (l : list string) (st tn : string) :
  bound self →
  st_build s = Some b → last b = Some build →
  build !! "sources" = Some (VList l) →
  build !! "step" = Some (VStr st) → st ≠ EmptyString → st ∈ l →
  build !! "target_name" = Some (VStr tn) → tn ≠ EmptyString →
  build !! "status" = Some (VStr "failed") →
  ∃ pre suf,
    l = pre ++ (st :: suf) ∧ (st ∉ pre)
    ∧ merge_resume env self s
      = (call env (EValidateSources (VList (st :: suf)));;
         log INFO (MsgResuming build);;
         merge env self (VList (st :: suf)) (VStr tn) 100000) s.
Proof.
  intros Hb Hs Hlast Hsources Hstep Hst Hin Htn Htn' Hstatus.
  destruct (list_index_spec st l Hin) as (i & pre & suf & Hi & Hl & Hpre & Hdrop).
  exists pre, suf. split; [done|]. split; [done|].
  rewrite (merge_resume_last self s Hb), Hs. simpl default. rewrite Hlast.
  cbv zeta. rewrite Hsources, Hstep, Htn, Hstatus. simpl default.
  assert (l ≠ []) as Hne by (by intros ->; apply elem_of_nil in Hin).
  simpl. rewrite (bool_decide_eq_false_2 (l = [])) by done.
  rewrite (bool_decide_eq_false_2 (st = EmptyString)) by done.
  simpl. rewrite (bool_decide_eq_true_2 (st ∈ l)) by done.
  rewrite (bool_decide_eq_false_2 (tn = EmptyString)) by done.
  simpl. rewrite Hi, Hdrop. done.
Qed.

(** *** The bound of the history and the record a call rewrites *)

(** An initialising call on a history of [n] records leaves
    [min (n + 1) (max_build_status + 1)] records: the new record at the end
    of what remains of the old ones, dropped from the front. *)
Lemma register_status_init_bound (self : builder) (status : string)
    (transient : bool) (s : state) (b : list record) :
  bound self → st_build s = Some b → (0 ≤ max_build_status self)%Z →
  ∃ s' k,
    register_status env self status transient true None s = (Ok (), s')
    ∧ st_build s'
      = Some (drop k (b ++ [new_build_info env self status transient s]))
    ∧ length (drop k (b ++ [new_build_info env self status transient s]))
      = min (length b + 1) (Z.to_nat (max_build_status self) + 1).
Proof.
  intros Hb Hs Hmax. eexists _, _.
  split; [by apply register_status_init_plain|]. split; [done|].
  rewrite length_drop, length_app. simpl. lia.
Qed.

(** A call that does not initialise merges its payload into the last record
    and leaves the others, and the length, as they were. *)
Lemma register_status_update_in_place (self : builder) (status : string)
    (transient : bool) (extra : record) (s : state) (b : list record)
    (r : record) :
  bound self → st_build s = Some (b ++ [r]) →
  ∃ s',
    register_status env self status transient false (Some extra) s = (Ok (), s')
    ∧ st_build s'
      = Some (b ++ [(extra ∪ new_build_info env self status transient s) ∪ r]).
Proof.
  intros Hb Hs. eexists. split.
  - eapply register_status_extra; [done..|]. by rewrite last_snoc.
  - simpl. by rewrite removelast_last.
Qed.

(** An initialising call with a payload rewrites the record that was last
    before it pushes its own. *)
Lemma register_status_init_rewrites_last (self : builder) (status : string)
    (transient : bool) (extra : record) (s : state) (b : list record)
    (r : record) :
  bound self → st_build s = Some (b ++ [r]) →
  (Z.of_nat (length (b ++ [r])) ≤ max_build_status self)%Z →
  let info := extra ∪ new_build_info env self status transient s in
  ∃ s',
    register_status env self status transient true (Some extra) s = (Ok (), s')
    ∧ st_build s' = Some (b ++ [info ∪ r; info]).
Proof.
  intros Hb Hs Hmax info. eexists. split.
  - eapply register_status_extra; [done..|]. by rewrite last_snoc.
  - simpl. rewrite removelast_last. replace (Z.to_nat _) with 0 by lia.
    by rewrite drop_0, <-(assoc_L (++)).
Qed.

(** *** The [except] and [finally] clauses of [merge] *)

Lemma validate_count_no_stats (self : builder) (s : state) :
  _stats self = None → validate_count env self s = (Ok (), s).
Proof. intros Hst. unfold validate_count. by rewrite Hst. Qed.

(** With a history that has a last record, the [except] clause marks that
    record failed, stores the description of the exception and raises the
    exception again. *)
Lemma merge_except_registers (self : builder) (e : exn) (s : state)
    (b : list record) (r : record) :
  bound self → st_build s = Some (b ++ [r]) →
  ∃ s' r',
    merge_except env self e s = (Raise e, s')
    ∧ st_build s' = Some (b ++ [r'])
    ∧ r' !! "status" = Some (VStr "failed")
    ∧ r' !! "err" = Some (VStr (exn_repr e)).
Proof.
  intros Hb Hs. unfold merge_except.
  erewrite bind_ok by done.
  destruct (register_status_update_in_place self "failed" false
              (<["err" := VStr (exn_repr e)]> ∅)
              (add_log ERROR (MsgTraceback e) s) b r Hb Hs) as (s' & Hreg & Hbuild).
  erewrite bind_ok by exact Hreg.
  eexists _, _. split; [done|]. split; [exact Hbuild|]. split.
  - apply lookup_union_Some_l. rewrite lookup_union_r.
    + unfold new_build_info. cbv zeta iota.
      rewrite !lookup_insert_ne by done. apply lookup_insert_eq.
    + rewrite lookup_insert_ne by done. apply lookup_empty.
  - apply lookup_union_Some_l, lookup_union_Some_l, lookup_insert_eq.
Qed.

(** When the [try] block of [merge] raises an exception the [except]
    clause catches, at a point where the history has a last record, and
    no [_stats] attribute is set, [merge] leaves that record failed and
    raises the same exception. *)
Lemma merge_body_reraises (self : builder) (sources : value) (bs : Z)
    (e : exn) (s s1 : state) (b : list record) (r : record) :
  bound self → _stats self = None →
  merge_try env self sources bs s = (Raise e, s1) →
  caught_by_merge e = true →
  st_build s1 = Some (b ++ [r]) →
  ∃ s' r',
    try_finally
      (try_except (merge_try env self sources bs) caught_by_merge
         (merge_except env self))
      (validate_count env self) s = (Raise e, s')
    ∧ st_build s' = Some (b ++ [r'])
    ∧ r' !! "status" = Some (VStr "failed")
    ∧ r' !! "err" = Some (VStr (exn_repr e)).
Proof.
  intros Hb Hstats Htry Hcaught Hs1.
  destruct (merge_except_registers self e s1 b r Hb Hs1)
    as (s' & r' & Hexc & Hbuild & Hstatus & Herr).
  exists s', r'. split; [|done].
  unfold try_finally, try_except. rewrite Htry, Hcaught, Hexc.
  by rewrite validate_count_no_stats.
Qed.

(** Without a [_stats] attribute [merge] never asks the target for its
    count. *)
Lemma merge_without_stats_never_counts (self : builder)
    (sources target_name : value) (bs : Z) :
  _stats self = None →
  emits (λ e, e ≠ ECount) (merge env self sources target_name bs).
Proof.
  intros Hstats. set (I := λ e, e ≠ ECount).
  assert (Hsrc : ∀ src, emits I (merge_source env self src bs)).
  { intros src. unfold merge_source.
    apply emits_bind; [by apply emits_get_mapper_for_source|intros mapper].
    apply emits_bind.
    { destruct (doc_root_key self); [|apply emits_ret].
      apply emits_bind; [apply emits_lift|intros ?; apply emits_lift]. }
    intros upsert. apply emits_bind; [apply emits_when, emits_log|intros ?].
    apply emits_bind; [apply emits_get|intros s].
    destruct (doc_feeder env (st_events s) src bs) as [batches err].
    apply emits_bind; [by apply emits_event|intros ?].
    apply emits_bind.
    - apply emits_foldM. intros cnt docs.
      apply emits_bind; [by apply emits_ask|intros docs'].
      apply emits_bind; [by apply emits_ask|intros n]. apply emits_ret.
    - intros cnt. destruct err; [apply emits_raise|apply emits_ret]. }
  assert (Hsrcs : ∀ v, emits I (merge_sources env self v bs)).
  { intros v. unfold merge_sources.
    apply emits_bind; [apply emits_lift|intros names].
    apply emits_bind; [apply emits_lift|intros roots].
    apply emits_bind; [apply emits_lift|intros rset].
    apply emits_bind; [apply emits_log|intros ?].
    apply emits_bind.
    - apply emits_foldM. intros st [i src].
      apply emits_bind; [apply emits_register_status|intros ?].
      apply emits_bind; [apply Hsrc|intros ?]. apply emits_ret.
    - intros st. apply emits_bind; [by apply emits_call|intros ?]. apply emits_ret. }
  unfold merge.
  apply emits_bind; [apply emits_get|intros s].
  apply emits_bind; [by apply emits_modify|intros ?].
  apply emits_bind.
  { destruct sources; try apply emits_ret.
    apply emits_bind; [by apply emits_call|intros ?].
    apply emits_bind; [by apply emits_call|intros ?].
    apply emits_config_getitem. }
  intros srcs. apply emits_bind; [by apply emits_when, emits_call|intros ?].
  apply emits_try_finally.
  - apply emits_try_except.
    + unfold merge_try.
      apply emits_bind; [apply emits_register_status|intros ?].
      apply emits_bind.
      { destruct (parallel_engine self); [|apply Hsrcs].
        destruct (truthy srcs); apply emits_raise. }
      intros st. apply emits_bind; [by apply emits_call|intros ?].
      apply emits_bind; [by apply emits_ask|intros ?].
      apply emits_register_status.
    + intros e. unfold merge_except.
      apply emits_bind; [apply emits_log|intros ?].
      apply emits_bind; [apply emits_register_status|intros ?]. apply emits_raise.
  - apply emits_pure. intros s0 r s' Hrun.
    rewrite validate_count_no_stats in Hrun by done. by simplify_eq.
Qed.

End facts.

(** *** Runs in the concrete setting *)

Lemma example_bound (max : Z) (stats : option (gmap string Z)) :
  bound (example_builder max stats).
Proof. exists example_config. split; [done|]. by eexists. Qed.

Lemma example_set_order_ok : set_order_ok example_env.
Proof. by intros X. Qed.

(** C1: with [max_build_status = 1], two initialising calls on an empty
    history both succeed and leave two records, one more than the
    configured maximum. *)
Theorem register_status_keeps_one_too_many :
  let self := example_builder 1 None in
  let run1 :=
    register_status example_env self "building" true true None (example_state []) in
  let run2 := register_status example_env self "building" true true None run1.2 in
  run1.1 = Ok () ∧ run2.1 = Ok ()
  ∧ length <$> st_build run2.2 = Some 2
  ∧ (max_build_status self < 2)%Z.
Proof.
  cbv zeta. split; [vm_compute; reflexivity|].
  split; [vm_compute; reflexivity|].
  split; vm_compute; reflexivity.
Qed.

(** C4: an initialising call with a [build] payload, as [merge] makes it,
    rewrites the terminal record of the previous attempt: its status
    [success] becomes [building] and its step and sources those of the new
    attempt. *)
Theorem register_status_init_overwrites_previous :
  let self := example_builder 10 None in
  let before := example_state [finished_record "success" "refseq"] in
  let extra : record :=
    <["step" := VStr "init"]> (<["sources" := VList ["geneinfo"]]> ∅) in
  let run :=
    register_status example_env self "building" true true (Some extra) before in
  run.1 = Ok ()
  ∧ length <$> st_build run.2 = Some 2
  ∧ history_field 0 "status" before = Some (VStr "success")
  ∧ history_field 0 "status" run.2 = Some (VStr "building")
  ∧ history_field 0 "step" run.2 = Some (VStr "init")
  ∧ history_field 0 "sources" run.2 = Some (VList ["geneinfo"]).
Proof.
  cbv zeta. split; [vm_compute; reflexivity|].
  split; [vm_compute; reflexivity|].
  split; [vm_compute; reflexivity|].
  split; [vm_compute; reflexivity|].
  split; vm_compute; reflexivity.
Qed.

(** C5: a merge of both sources succeeds and records the statistics
    [total_geneinfo = 1] and [total_refseq = 1] while the target counts
    five documents; [merge] neither asks the target for its count nor logs
    anything about it. With a [_stats] attribute that holds
    [total_documents = 2], the same merge ends in a [KeyError]. *)
Theorem merge_does_not_validate_count :
  let before := example_state [finished_record "success" "refseq"] in
  let run :=
    merge example_env (example_builder 10 None) VNone VNone 100000 before in
  let run_with_stats :=
    merge example_env
      (example_builder 10 (Some (<["total_documents" := 2%Z]> ∅)))
      VNone VNone 100000 before in
  run.1 = Ok ()
  ∧ history_field 1 "stats" run.2
    = Some (VCounts (<["total_geneinfo" := 1%Z]> (<["total_refseq" := 1%Z]> ∅)))
  ∧ st_events run.2
    = [EDrop; EPrepare;
       EGetSrcMasterDocs; ENeedLoad None; EFeed "refseq" 100000;
       EProcess None [∅]; EUpdate [∅] true;
       EGetSrcMasterDocs; ENeedLoad None; EFeed "geneinfo" 100000;
       EProcess None [∅]; EUpdate [∅] false;
       EFinalize; EPostMerge; EGetSrcVersions]
  ∧ count example_env (st_events run.2) = Ok 5%Z
  ∧ validation_messages (st_log run.2) = []
  ∧ run_with_stats.1 = Raise (KeyError "total_genes").
Proof.
  cbv zeta. split; [vm_compute; reflexivity|].
  split; [vm_compute; reflexivity|].
  split; [vm_compute; reflexivity|].
  split; [reflexivity|].
  split; vm_compute; reflexivity.
Qed.

(** C6: on a configuration whose history is empty the first call of
    [register_status] in [merge] raises [IndexError]; the [except] clause
    logs it and calls [register_status] again, which raises [IndexError]
    again. The caller gets that exception and the history is still empty:
    no failed record was registered. *)
Theorem merge_on_empty_history_registers_nothing :
  let run :=
    merge example_env (example_builder 10 None) VNone VNone 100000
      (example_state []) in
  run.1 = Raise (IndexError "list index out of range")
  ∧ st_build run.2 = Some []
  ∧ (st_log run.2).*1 = [INFO; ERROR; INFO].
Proof.
  cbv zeta. split; [vm_compute; reflexivity|].
  split; vm_compute; reflexivity.
Qed.

(** The end-to-end case of a merge that fails while it reads the second
    source: the record of the attempt is failed, its step is that source and
    its sources are intact. *)
Example merge_fails_at_second_source :
  let run :=
    merge failing_env (example_builder 10 None) VNone VNone 100000
      (example_state [finished_record "success" "refseq"]) in
  run.1 = Raise (OtherException "IOError" "read failed")
  ∧ length <$> st_build run.2 = Some 2
  ∧ history_field 1 "status" run.2 = Some (VStr "failed")
  ∧ history_field 1 "step" run.2 = Some (VStr "geneinfo")
  ∧ history_field 1 "sources" run.2 = Some (VList ["geneinfo"; "refseq"])
  ∧ history_field 1 "err" run.2 = Some (VStr "IOError('read failed',)").
Proof.
  cbv zeta. split; [vm_compute; reflexivity|].
  split; [vm_compute; reflexivity|].
  split; [vm_compute; reflexivity|].
  split; [vm_compute; reflexivity|].
  split; vm_compute; reflexivity.
Qed.

(** *** The general statements at work *)

Lemma merge_resume_refuses_witness :
  bound (example_builder 10 None)
  ∧ merge_resume example_env (example_builder 10 None) (example_state [])
    = (Raise (ResumeException
                "No build bound for configuration 'example', can't resume"),
       example_state []).
Proof.
  split; [apply example_bound|].
  apply (merge_resume_refuses example_env (example_builder 10 None)
           (example_state []) (example_bound 10 None)).
  reflexivity.
Defined.

Example resume_without_step_is_refused :
  merge_resume example_env (example_builder 10 None)
    (example_state [<["sources" := VList ["geneinfo"; "refseq"]]> ∅])
  = (Raise (ResumeException "No 'step' found"),
     example_state [<["sources" := VList ["geneinfo"; "refseq"]]> ∅]).
Proof. vm_compute. reflexivity. Qed.

Example resume_with_foreign_step_is_refused :
  merge_resume example_env (example_builder 10 None)
    (example_state [finished_record "failed" "init"])
  = (Raise (ResumeException
       "Step 'init' isn't part of sources used for the merge ('['geneinfo', 'refseq']')"),
     example_state [finished_record "failed" "init"]).
Proof. vm_compute. reflexivity. Qed.

Example resume_after_success_is_refused :
  merge_resume example_env (example_builder 10 None)
    (example_state [finished_record "success" "refseq"])
  = (Raise (ResumeException "Nothing to resume"),
     example_state [finished_record "success" "refseq"]).
Proof. vm_compute. reflexivity. Qed.

Lemma merge_resume_resumes_witness :
  let self := example_builder 10 None in
  let s := example_state [finished_record "failed" "refseq"] in
  bound self
  ∧ ∃ pre suf,
      ["geneinfo"; "refseq"] = pre ++ ("refseq" :: suf) ∧ ("refseq" ∉ pre)
      ∧ merge_resume example_env self s
        = (call example_env (EValidateSources (VList ("refseq" :: suf)));;
           log INFO (MsgResuming (finished_record "failed" "refseq"));;
           merge example_env self (VList ("refseq" :: suf)) (VStr "target") 100000) s.
Proof.
  cbv zeta. split; [apply example_bound|].
  apply (merge_resume_resumes example_env (example_builder 10 None)
           (example_state [finished_record "failed" "refseq"])
           [finished_record "failed" "refseq"]
           (finished_record "failed" "refseq") ["geneinfo"; "refseq"]
           "refseq" "target").
  - apply example_bound.
  - reflexivity.
  - reflexivity.
  - vm_compute. reflexivity.
  - vm_compute. reflexivity.
  - discriminate.
  - apply (bool_decide_unpack _). vm_compute. exact I.
  - vm_compute. reflexivity.
  - discriminate.
  - vm_compute. reflexivity.
Defined.

Lemma merge_sources_roots_first_witness :
  let self := example_builder 10 None in
  let s := example_state [finished_record "success" "refseq"] in
  let run := merge_sources example_env self (VList ["geneinfo"; "refseq"]) 100000 s in
  set_order_ok example_env
  ∧ root_decl self = Some ["refseq"]
  ∧ ∃ evs rs os,
      st_events run.2 = st_events s ++ evs
      ∧ fed evs = rs ++ os
      ∧ Forall (λ x, x ∈ ["refseq"]) rs
      ∧ Forall (λ x, x ∉ ["refseq"]) os
      ∧ (∀ a, run.1 = Ok a →
           NoDup (rs ++ os) ∧ ∀ x, x ∈ rs ++ os ↔ x ∈ ["geneinfo"; "refseq"]).
Proof.
  cbv zeta. split; [apply example_set_order_ok|]. split; [reflexivity|].
  apply (merge_sources_roots_first example_env (example_builder 10 None)
           ["geneinfo"; "refseq"] ["refseq"] 100000).
  - apply example_set_order_ok.
  - reflexivity.
  - apply surjective_pairing.
Defined.

Example merge_sources_reorders :
  fed (st_events (merge_sources example_env (example_builder 10 None)
                    (VList ["geneinfo"; "refseq"]) 100000
                    (example_state [finished_record "success" "refseq"])).2)
  = ["refseq"; "geneinfo"].
Proof. vm_compute. reflexivity. Qed.

Lemma merge_source_upsert_witness :
  let self := example_builder 10 None in
  let s := example_state [finished_record "success" "refseq"] in
  let run := merge_source example_env self "geneinfo" 100000 s in
  root_decl self = Some ["refseq"]
  ∧ run.1 = Ok {[ "total_geneinfo" := 1%Z ]}
  ∧ ((∃ e evs, run.1 = Raise e ∧ st_events run.2 = st_events s ++ evs
               ∧ Forall quiet evs)
     ∨ ∃ mapper upsert pre post batches err,
         (upsert = true ↔ doc_root_key self = None ∨ "geneinfo" ∈ ["refseq"])
         ∧ st_events run.2 = st_events s ++ pre ++ EFeed "geneinfo" 100000 :: post
         ∧ Forall quiet pre
         ∧ doc_feeder example_env (st_events s ++ pre) "geneinfo" 100000
           = (batches, err)
         ∧ processed post `prefix_of` batches
         ∧ length (written post) ≤ length (processed post)
         ∧ (∀ docs u, EUpdate docs u ∈ post → u = upsert)
         ∧ (∀ a, run.1 = Ok a →
              err = None
              ∧ ∃ news,
                  Forall2 (λ docs new,
                             ∃ t, process example_env t mapper docs = Ok new)
                    batches news
                  ∧ post = mjoin (zip_with (batch_calls mapper upsert)
                                    batches news))).
Proof.
  cbv zeta. split; [reflexivity|]. split; [vm_compute; reflexivity|].
  apply (merge_source_upsert example_env (example_builder 10 None) "geneinfo"
           ["refseq"] 100000).
  - reflexivity.
  - apply surjective_pairing.
Defined.

Example example_sources_write_modes :
  let s := example_state [finished_record "success" "refseq"] in
  upserts (st_events (merge_source example_env (example_builder 10 None)
                        "refseq" 100000 s).2) = [true]
  ∧ upserts (st_events (merge_source example_env (example_builder 10 None)
                          "geneinfo" 100000 s).2) = [false].
Proof. split; vm_compute; reflexivity. Qed.

End BuilderFacts.

(** ** More about record_chain.py *)

Module RecChainExtra.
Import RecChain RecChainFacts.

(** *** Adding nodes and edges *)

Lemma nodes_set_succs (g : digraph) (n : ident) (vs : list ident) :
  nodes (set_succs g n vs) = nodes g.
Proof.
  unfold nodes. induction g as [|[k ws] g IH]; [done|]. simpl.
  case_decide; [done|]. csimpl. by f_equal.
Qed.

Lemma add_node_present (g : digraph) (n : ident) :
  is_Some (succs g n) → add_node g n = g.
Proof. intros [vs Hn]. unfold add_node. by rewrite Hn. Qed.

Lemma simple_add_node (g : digraph) (n : ident) : simple g → simple (add_node g n).
Proof.
  intros [Hnd Hsucc]. unfold add_node.
  destruct (succs g n) as [vs|] eqn:Hn; [done|]. split.
  - unfold nodes. rewrite fmap_app. apply NoDup_app. split; [done|]. split.
    + intros x Hx [->|[]%elem_of_nil]%elem_of_cons. simpl in Hx.
      apply succs_is_Some in Hx as [? Hx]. congruence.
    + apply NoDup_singleton.
  - apply Forall_app. split; [done|]. constructor; [constructor|constructor].
Qed.

Lemma simple_set_succs (g : digraph) (n : ident) (vs : list ident) :
  simple g → NoDup vs → simple (set_succs g n vs).
Proof.
  intros [Hnd Hsucc] Hvs. split; [by rewrite nodes_set_succs|].
  clear Hnd. induction Hsucc as [|[k ws] g Hk Hg IH]; [constructor|].
  simpl. case_decide; constructor; done.
Qed.

Lemma succs_simple (g : digraph) (n : ident) (vs : list ident) :
  simple g → succs g n = Some vs → NoDup vs.
Proof.
  intros [_ Hsucc] Hn. induction Hsucc as [|[k ws] g Hk Hg IH]; [done|].
  simpl in Hn. case_decide; simplify_eq; auto.
Qed.

Lemma simple_add (g : digraph) (u v : ident) : simple g → simple (add g u v).
Proof.
  intros Hg. unfold add, add_edge. cbv zeta.
  set (g1 := add_node (add_node (add_node g v) u) v).
  assert (simple g1) as Hg1 by (unfold g1; by do 3 apply simple_add_node).
  destruct (succs g1 u) as [vs|] eqn:Hu; [|done].
  case_decide as Hin; [done|]. apply simple_set_succs; [done|].
  apply NoDup_app. split; [by eapply succs_simple|]. split.
  - by intros x Hx ->%list_elem_of_singleton.
  - apply NoDup_singleton.
Qed.

Lemma foldl_apply_op_invariant (ops : list op) (g : digraph) :
  wf g ∧ simple g → wf (foldl apply_op g ops) ∧ simple (foldl apply_op g ops).
Proof.
  revert g. induction ops as [|o ops IH]; intros g [Hwf Hs]; [done|]. simpl.
  apply IH. destruct o as [x|x y]; simpl.
  - split; [by apply wf_add_node|by apply simple_add_node].
  - split; [by apply wf_add|by apply simple_add].
Qed.

Lemma build_invariant (ops : list op) : wf (build ops) ∧ simple (build ops).
Proof.
  apply foldl_apply_op_invariant. split; [apply wf_nil|]. split; constructor.
Qed.

(** X1: the chain a sequence of [add_root] and [add] calls builds is
    well-formed (every successor is a node) and simple (no node and no edge
    twice). *)
Theorem build_wf_simple (ops : list op) : wf (build ops) ∧ simple (build ops).
Proof. apply build_invariant. Qed.

(** X2: [add(obj1, obj2)] makes both objects nodes and [obj1 → obj2] an
    edge, and changes no other node or edge. *)
Theorem add_spec (g : digraph) (obj1 obj2 a b : ident) :
  (edge (add g obj1 obj2) a b ↔ edge g a b ∨ (a = obj1 ∧ b = obj2))
  ∧ (a ∈ nodes (add g obj1 obj2) ↔ a = obj1 ∨ a = obj2 ∨ a ∈ nodes g).
Proof.
  split; [apply edge_add|].
  by rewrite <-!succs_is_Some, succs_add_is_Some.
Qed.

Lemma add_present (g : digraph) (u v : ident) :
  edge g u v → is_Some (succs g v) → add g u v = g.
Proof.
  intros (vs & Hu & Hv) Hnode. unfold add, add_edge. cbv zeta.
  rewrite (add_node_present g v) by done.
  rewrite (add_node_present g u) by eauto.
  rewrite (add_node_present g v) by done.
  rewrite Hu. by rewrite decide_True.
Qed.

(** X3: adding an edge a second time changes nothing, and so does
    registering a root that is a node already. *)
Theorem add_idempotent (g : digraph) (obj1 obj2 : ident) :
  add (add g obj1 obj2) obj1 obj2 = add g obj1 obj2
  ∧ add_root (add_root g obj1) obj1 = add_root g obj1
  ∧ add_root (add g obj1 obj2) obj1 = add g obj1 obj2
  ∧ add_root (add g obj1 obj2) obj2 = add g obj1 obj2.
Proof.
  split; [|split; [|split]].
  - apply add_present.
    + apply edge_add. by right.
    + apply succs_add_is_Some. auto.
  - apply add_node_present, succs_add_node_is_Some. by left.
  - apply add_node_present, succs_add_is_Some. auto.
  - apply add_node_present, succs_add_is_Some. auto.
Qed.

(** *** Roots *)

Lemma out_deg_add_node (g : digraph) (n x : ident) :
  out_deg (add_node g n) x = out_deg g x.
Proof.
  unfold out_deg, add_node. destruct (succs g n) eqn:Hn; [done|].
  rewrite succs_app. destruct (succs g x); [done|]. simpl. by case_decide.
Qed.

(** X4: registering roots alone gives a chain without root nodes: a node
    counts as a root only once it has exactly one outgoing edge, so the
    length of a freshly seeded chain is 0 and iterating it yields nothing. *)
Theorem seeded_chain_has_no_roots (fuel : nat) (xs : list ident) :
  let g := foldl add_root [] xs in
  root_nodes g = [] ∧ len g = 0 ∧ iter fuel g = ([], Finished).
Proof.
  cbv zeta.
  assert (Hdeg : ∀ x, out_deg (foldl add_root [] xs) x = 0).
  { assert (H : ∀ g, (∀ x, out_deg g x = 0) → ∀ x, out_deg (foldl add_root g xs) x = 0).
    { induction xs as [|y xs IH]; intros g Hg x; [apply Hg|]. simpl.
      apply IH. intros z. unfold add_root. by rewrite out_deg_add_node. }
    by apply H. }
  assert (Hroots : root_nodes (foldl add_root [] xs) = []).
  { unfold root_nodes.
    destruct (filter _ _) as [|x l] eqn:Hf; [done|].
    assert (x ∈ x :: l) as Hx by left. rewrite <-Hf in Hx.
    apply list_elem_of_filter in Hx as [[Hx _] _]. by rewrite Hdeg in Hx. }
  split; [done|]. split; [unfold len; by rewrite Hroots|].
  unfold iter. by rewrite Hroots.
Qed.

(** *** Cycles *)

Lemma find_leaf_out_of_fuel (g : digraph) (fuel : nat) (n : ident) :
  (∀ v, rtc (edge g) n v → ∃ w ws, succs g v = Some (w :: ws)) →
  find_leaf fuel g n = ([], OutOfFuel).
Proof.
  revert n. induction fuel as [|fuel IH]; intros n Hn; [done|].
  rewrite find_leaf_S. destruct (Hn n) as (w & ws & Hw); [done|].
  rewrite Hw. simpl. rewrite IH; [done|].
  intros v Hv. apply Hn. eapply rtc_l; [|done]. exists (w :: ws). split; [done|by left].
Qed.

(** X5: from a node that reaches no node without successors (so from any
    node of a cycle that has no way out) [find_leaf] yields nothing and ends
    in a [RecursionError], whatever the recursion limit: the nested calls
    go on until the interpreter refuses the next one. *)
Theorem find_leaf_raises_recursion_error (g : digraph) (limit : nat) (n : ident) :
  (∀ v, rtc (edge g) n v → ∃ w ws, succs g v = Some (w :: ws)) →
  ∃ msg, find_leaf_limited limit g n
         = ([], Raised (OtherException "RecursionError" msg)).
Proof.
  intros Hn. unfold find_leaf_limited. rewrite find_leaf_out_of_fuel by done.
  by eexists.
Qed.

Lemma find_leaf_raises_recursion_error_witness :
  (∀ v, rtc (edge cycle_chain) (IInt 1) v → ∃ w ws, succs cycle_chain v = Some (w :: ws))
  ∧ ∃ msg, find_leaf_limited 1000 cycle_chain (IInt 1)
           = ([], Raised (OtherException "RecursionError" msg)).
Proof.
  assert (H : ∀ v, rtc (edge cycle_chain) (IInt 1) v →
                   ∃ w ws, succs cycle_chain v = Some (w :: ws)).
  { assert (Hinv : ∀ u v, rtc (edge cycle_chain) u v →
              u = IInt 1 ∨ u = IInt 2 → v = IInt 1 ∨ v = IInt 2).
    { induction 1 as [|u w v (vs & Hu & Hw) _ IH]; [done|]. intros Hu'.
      apply IH. destruct Hu' as [-> | ->]; vm_compute in Hu;
        injection Hu as <-; apply list_elem_of_singleton in Hw; auto. }
    intros v Hv. destruct (Hinv _ _ Hv) as [-> | ->]; [by left| |];
      vm_compute; eauto. }
  split; [exact H|].
  exact (find_leaf_raises_recursion_error cycle_chain 1000 (IInt 1) H).
Defined.

(** *** Leaves of acyclic chains *)

(** X6: on a well-formed acyclic chain, [find_leaf] from a node returns
    (fuel above the number of nodes is enough) and yields exactly the nodes
    without successors that the node reaches. *)
Theorem find_leaf_yields_reachable_leaves (g : digraph) (fuel : nat) (n : ident) :
  wf g → acyclic g → n ∈ nodes g → length g < fuel →
  ∃ items, find_leaf fuel g n = (items, Finished)
           ∧ ∀ v, v ∈ items ↔ rtc (edge g) n v ∧ succs g v = Some [].
Proof. apply find_leaf_spec. Qed.

Lemma find_leaf_yields_reachable_leaves_witness :
  wf test_chain ∧ acyclic test_chain ∧ IInt 3 ∈ nodes test_chain
  ∧ length test_chain < 6
  ∧ ∃ items, find_leaf 6 test_chain (IInt 3) = (items, Finished)
             ∧ ∀ v, v ∈ items
                    ↔ rtc (edge test_chain) (IInt 3) v ∧ succs test_chain v = Some [].
Proof.
  assert (Hnode : IInt 3 ∈ nodes test_chain).
  { apply succs_is_Some. vm_compute. by eexists. }
  assert (Hlen : length test_chain < 6) by (vm_compute; lia).
  split; [exact test_chain_wf|]. split; [exact test_chain_acyclic|].
  split; [exact Hnode|]. split; [exact Hlen|].
  exact (find_leaf_yields_reachable_leaves test_chain 6 (IInt 3)
           test_chain_wf test_chain_acyclic Hnode Hlen).
Defined.

(** X7: iterating a well-formed acyclic chain returns and yields exactly the
    pairs of a root node (no incoming edge, exactly one outgoing edge) and a
    node without successors that it reaches. *)
Theorem iter_yields_root_leaf_pairs (g : digraph) (fuel : nat) :
  wf g → acyclic g → length g < fuel →
  ∃ pairs, iter fuel g = (pairs, Finished)
           ∧ ∀ r l, (r, l) ∈ pairs
                    ↔ (r ∈ nodes g ∧ out_deg g r = 1 ∧ in_deg g r = 0)
                      ∧ rtc (edge g) r l ∧ succs g l = Some [].
Proof.
  intros Hwf Hacyc Hlen.
  destruct (iter_spec g fuel Hwf Hacyc Hlen) as (pairs & Hit & Hspec).
  exists pairs. split; [done|]. intros r l. rewrite Hspec.
  unfold root_nodes, leaf_of. rewrite list_elem_of_filter. tauto.
Qed.

Lemma iter_yields_root_leaf_pairs_witness :
  wf test_chain ∧ acyclic test_chain ∧ length test_chain < 6
  ∧ ∃ pairs, iter 6 test_chain = (pairs, Finished)
             ∧ ∀ r l, (r, l) ∈ pairs
                      ↔ (r ∈ nodes test_chain ∧ out_deg test_chain r = 1
                         ∧ in_deg test_chain r = 0)
                        ∧ rtc (edge test_chain) r l ∧ succs test_chain l = Some [].
Proof.
  assert (Hlen : length test_chain < 6) by (vm_compute; lia).
  split; [exact test_chain_wf|]. split; [exact test_chain_acyclic|].
  split; [exact Hlen|].
  exact (iter_yields_root_leaf_pairs test_chain 6
           test_chain_wf test_chain_acyclic Hlen).
Defined.

(** X8: given a list of nodes of a well-formed acyclic chain, [lookup]
    returns, and returns true exactly when one of the listed nodes reaches
    [obj2] and [obj2] has no successor. *)
Theorem lookup_list_decides (g : digraph) (fuel : nat) (ids : list ident)
    (obj2 : ident) :
  wf g → acyclic g → Forall (λ n, n ∈ nodes g) ids → length g < fuel →
  ∃ b, lookup fuel g (OList ids) obj2 = Some (Ok b)
       ∧ (b = true ↔ ∃ n, n ∈ ids ∧ rtc (edge g) n obj2 ∧ succs g obj2 = Some []).
Proof.
  intros Hwf Hacyc Hids Hlen. unfold lookup, find_left. simpl.
  assert (Hsub : ∀ n, n ∈ ids →
    ∃ items, find_leaf fuel g n = (items, Finished)
             ∧ ∀ v, v ∈ items ↔ leaf_of g n v).
  { intros n Hn. apply find_leaf_spec; [done..| |done].
    by eapply Forall_forall in Hids. }
  destruct (gen_concat_finished (find_leaf fuel g) ids) as (items & -> & Hitems).
  { intros n Hn. by destruct (Hsub n Hn) as (? & -> & _). }
  assert (Hiff : obj2 ∈ items
                 ↔ ∃ n, n ∈ ids ∧ rtc (edge g) n obj2 ∧ succs g obj2 = Some []).
  { rewrite Hitems. split; intros (n & Hn & Hv); exists n; (split; [done|]);
      destruct (Hsub n Hn) as (its & Hit & Hspec); rewrite Hit in *;
      by apply Hspec. }
  case_decide as Hin.
  - exists true. split; [done|]. split; [by intros _; apply Hiff|done].
  - exists false. split; [done|]. split; [done|]. by intros ?%Hiff.
Qed.

Lemma lookup_list_decides_witness :
  wf test_chain ∧ acyclic test_chain
  ∧ Forall (λ n, n ∈ nodes test_chain) [IInt 1] ∧ length test_chain < 6
  ∧ ∃ b, lookup 6 test_chain (OList [IInt 1]) (IInt 4) = Some (Ok b)
         ∧ (b = true ↔ ∃ n, n ∈ [IInt 1] ∧ rtc (edge test_chain) n (IInt 4)
                             ∧ succs test_chain (IInt 4) = Some []).
Proof.
  assert (Hnodes : Forall (λ n, n ∈ nodes test_chain) [IInt 1]).
  { apply Forall_singleton, succs_is_Some. vm_compute. by eexists. }
  assert (Hlen : length test_chain < 6) by (vm_compute; lia).
  split; [exact test_chain_wf|]. split; [exact test_chain_acyclic|].
  split; [exact Hnodes|]. split; [exact Hlen|].
  exact (lookup_list_decides test_chain 6 [IInt 1] (IInt 4)
           test_chain_wf test_chain_acyclic Hnodes Hlen).
Defined.

(** *** Combining chains *)

Lemma succs_foldl_add_is_Some (ps : list (ident * ident)) (g : digraph) (m : ident) :
  is_Some (succs g m) ∨ (∃ p, p ∈ ps ∧ (m = p.1 ∨ m = p.2)) →
  is_Some (succs (foldl (λ acc p, add acc p.1 p.2) g ps) m).
Proof.
  revert g. induction ps as [|[u v] ps IH]; intros g; simpl.
  - intros [?|(p & []%elem_of_nil & _)]. done.
  - intros [Hm|(p & [->|Hp]%elem_of_cons & Hm)]; apply IH.
    + left. apply succs_add_is_Some. auto.
    + left. apply succs_add_is_Some. simpl in Hm. tauto.
    + right. eauto.
Qed.

Lemma foldl_add_present (ps : list (ident * ident)) (g : digraph) :
  (∀ p, p ∈ ps → edge g p.1 p.2 ∧ is_Some (succs g p.2)) →
  foldl (λ acc p, add acc p.1 p.2) g ps = g.
Proof.
  induction ps as [|[u v] ps IH]; intros Hps; [done|]. simpl.
  destruct (Hps (u, v)) as [Huv Hv]; [by left|].
  rewrite add_present by done. apply IH. intros p Hp. apply Hps. by right.
Qed.

(** X9: combining the same chain a second time changes nothing: after
    [A += B], another [A += B] leaves the graph of [A] as it is. *)
Theorem iadd_idempotent (fuel : nat) (A B : digraph) :
  iadd fuel (iadd fuel A (inl B)).1 (inl B) = iadd fuel A (inl B).
Proof.
  unfold iadd. destruct (iter fuel B) as [pairs st]. simpl. f_equal.
  apply foldl_add_present. intros p Hp. split.
  - apply edge_foldl_add. right. by destruct p.
  - apply succs_foldl_add_is_Some. right. eauto.
Qed.

(** *** Registering a pair *)

Lemma succs_None (g : digraph) (n : ident) : succs g n = None ↔ n ∉ nodes g.
Proof. rewrite <-succs_is_Some, eq_None_not_Some. done. Qed.

Lemma entry_succs (g : digraph) (k : ident) (vs : list ident) :
  NoDup (nodes g) → (k, vs) ∈ g → succs g k = Some vs.
Proof.
  unfold nodes. induction g as [|[k' ws] g IH]; intros Hnd Hin.
  - by apply elem_of_nil in Hin.
  - apply NoDup_cons in Hnd as [Hk' Hnd]. simpl.
    apply elem_of_cons in Hin as [[= <- <-]|Hin].
    + by rewrite decide_True.
    + rewrite decide_False; [by apply IH|].
      intros ->. apply Hk'. apply list_elem_of_fmap. by exists (k, vs).
Qed.

Lemma in_deg_app (g1 g2 : digraph) (x : ident) :
  in_deg (g1 ++ g2) x = in_deg g1 x + in_deg g2 x.
Proof. unfold in_deg, digraph. by rewrite filter_app, length_app. Qed.

Lemma in_deg_cons (k : ident) (vs : list ident) (g : digraph) (x : ident) :
  in_deg ((k, vs) :: g) x = (if decide (x ∈ vs) then 1 else 0) + in_deg g x.
Proof. unfold in_deg, digraph. rewrite filter_cons. simpl. by case_decide. Qed.

Lemma in_deg_fresh (g : digraph) (x : ident) :
  wf g → NoDup (nodes g) → x ∉ nodes g → in_deg g x = 0.
Proof.
  intros Hwf Hnd Hx.
  assert (Forall (λ kv, x ∉ kv.2) g) as Hall.
  { apply Forall_forall. intros [k vs] Hin Hmem. simpl in Hmem.
    apply Hx, succs_is_Some, (Hwf k). exists vs. split; [by apply entry_succs|done]. }
  clear Hwf Hnd Hx. induction Hall as [|[k vs] g Hkv _ IH]; [done|].
  rewrite in_deg_cons, IH. simpl in Hkv. by rewrite decide_False.
Qed.

Lemma add_fresh (g : digraph) (a b : ident) :
  a ∉ nodes g → b ∉ nodes g → a ≠ b →
  add g a b = g ++ [(b, []); (a, [b])].
Proof.
  intros Ha%succs_None Hb%succs_None Hab. unfold add, add_edge, add_node.
  cbv zeta. rewrite Hb.
  assert (succs (g ++ [(b, [])]) a = None) as Ha1.
  { rewrite succs_app, Ha. simpl. by rewrite decide_False. }
  rewrite Ha1.
  assert (succs ((g ++ [(b, [])]) ++ [(a, [])]) b = Some []) as Hb1.
  { rewrite !succs_app, Hb. simpl. by rewrite decide_True. }
  rewrite Hb1.
  assert (succs ((g ++ [(b, [])]) ++ [(a, [])]) a = Some []) as Ha2.
  { rewrite succs_app, Ha1. simpl. by rewrite decide_True. }
  rewrite Ha2. rewrite decide_False by apply not_elem_of_nil.
  rewrite <-(assoc_L (++)). simpl. clear Ha1 Hb1 Ha2.
  induction g as [|[k ws] g IH]; simpl in *.
  - rewrite decide_False by done. by rewrite decide_True.
  - destruct (decide (k = a)); [done|]. destruct (decide (k = b)); [done|].
    by rewrite IH.
Qed.

(** X10: a pair of two new, distinct objects added to a chain built by
    [add_root] and [add] calls is registered: the first object is a left
    one (a root), the second a right one (a leaf), and [lookup] of the pair
    answers true. *)
Theorem add_registers_fresh_pair (ops : list op) (a b : ident) (fuel : nat) :
  a ∉ nodes (build ops) → b ∉ nodes (build ops) → a ≠ b → 2 ≤ fuel →
  let g := add (build ops) a b in
  left g a = true ∧ right g b = true
  ∧ lookup fuel g (OList [a]) b = Some (Ok true).
Proof.
  intros Ha Hb Hab Hfuel. cbv zeta.
  destruct (build_invariant ops) as [Hwf [Hnd _]].
  rewrite add_fresh by done. set (g := build ops) in *.
  assert (succs (g ++ [(b, []); (a, [b])]) a = Some [b]) as Hsa.
  { rewrite succs_app. apply succs_None in Ha as ->. simpl.
    rewrite decide_False by done. by rewrite decide_True. }
  assert (succs (g ++ [(b, []); (a, [b])]) b = Some []) as Hsb.
  { rewrite succs_app. apply succs_None in Hb as ->. simpl.
    by rewrite decide_True. }
  split; [|split].
  - apply bool_decide_eq_true. unfold root_nodes. apply list_elem_of_filter. split.
    + unfold out_deg. rewrite Hsa, in_deg_app, in_deg_fresh, !in_deg_cons by done.
      split; [done|]. rewrite decide_False by apply not_elem_of_nil.
      by rewrite decide_False by (by intros ?%list_elem_of_singleton).
    + unfold nodes. rewrite fmap_app. apply elem_of_app. right. simpl.
      apply elem_of_cons. right. by left.
  - apply bool_decide_eq_true. unfold leaf_nodes. apply list_elem_of_filter. split.
    + unfold out_deg. rewrite Hsb, in_deg_app, in_deg_fresh, !in_deg_cons by done.
      split; [done|]. rewrite decide_False by apply not_elem_of_nil.
      by rewrite decide_True by (by left).
    + unfold nodes. rewrite fmap_app. apply elem_of_app. right. by left.
  - destruct fuel as [|[|fuel]]; [lia|lia|]. unfold lookup, find_left. simpl py_iter.
    cbv iota. unfold gen_concat at 1.
    rewrite find_leaf_S, Hsa. unfold gen_concat. rewrite find_leaf_S, Hsb.
    simpl. by rewrite decide_True by (by left).
Qed.

Lemma add_registers_fresh_pair_witness :
  let ops := [OpRoot (IInt 1); OpAdd (IInt 1) (IInt 2)] in
  let a := IStr "x" in
  let b := IStr "y" in
  let g := add (build ops) a b in
  (a ∉ nodes (build ops)) ∧ (b ∉ nodes (build ops)) ∧ a ≠ b ∧ 2 ≤ 5
  ∧ left g a = true ∧ right g b = true
  ∧ lookup 5 g (OList [a]) b = Some (Ok true).
Proof.
  cbv zeta.
  assert (H1 : IStr "x" ∉ nodes (build [OpRoot (IInt 1); OpAdd (IInt 1) (IInt 2)]))
    by (vm_compute; intros H; repeat (apply elem_of_cons in H as [H|H]; [discriminate|]);
        by apply elem_of_nil in H).
  assert (H2 : IStr "y" ∉ nodes (build [OpRoot (IInt 1); OpAdd (IInt 1) (IInt 2)]))
    by (vm_compute; intros H; repeat (apply elem_of_cons in H as [H|H]; [discriminate|]);
        by apply elem_of_nil in H).
  assert (H3 : IStr "x" ≠ IStr "y") by discriminate.
  split; [exact H1|]. split; [exact H2|]. split; [exact H3|]. split; [lia|].
  apply (add_registers_fresh_pair [OpRoot (IInt 1); OpAdd (IInt 1) (IInt 2)]
           (IStr "x") (IStr "y") 5 H1 H2 H3). lia.
Defined.

(** X11: an object stops being a left one (a root) as soon as it gets a
    second edge: the root nodes are the nodes with exactly one outgoing
    edge, so after [add(a, b)] and [add(a, c)] with [b] and [c] distinct,
    [a] is not registered and iterating the chain yields no pair for it. *)
Theorem second_edge_unregisters (g : digraph) (a b c : ident) (fuel : nat) :
  b ≠ c →
  let g' := add (add g a b) a c in
  left g' a = false ∧ ∀ l, (a, l) ∉ (iter fuel g').1.
Proof.
  intros Hbc. cbv zeta. set (g' := add (add g a b) a c).
  assert (a ∉ root_nodes g') as Hroot.
  { unfold root_nodes. rewrite list_elem_of_filter. intros [[Hout _] _].
    assert (edge g' a b) as (vs & Hvs & Hb).
    { apply edge_add. left. apply edge_add. by right. }
    assert (edge g' a c) as (vs' & Hvs' & Hc) by (apply edge_add; by right).
    unfold out_deg in Hout. rewrite Hvs in Hout. rewrite Hvs in Hvs'.
    injection Hvs' as <-. simpl in Hout.
    destruct vs as [|x [|y vs]]; simpl in Hout; [done| |lia].
    apply list_elem_of_singleton in Hb, Hc. congruence. }
  split; [by apply bool_decide_eq_false|].
  intros l Hl. apply Hroot. clear Hroot. unfold iter in Hl.
  revert Hl. generalize (root_nodes g'). intros rs.
  induction rs as [|r rs IH]; simpl; [by intros ?%elem_of_nil|].
  destruct (find_leaf fuel g' r) as [ls st] eqn:Hr.
  destruct st.
  - destruct (gen_concat _ rs) as [zs st'] eqn:Hrest. simpl in *.
    intros [Hin|Hin]%elem_of_app.
    + apply list_elem_of_fmap in Hin as (? & [= <- _] & _). by left.
    + right. by apply IH.
  - simpl. intros Hin. apply list_elem_of_fmap in Hin as (? & [= <- _] & _). by left.
  - simpl. intros Hin. apply list_elem_of_fmap in Hin as (? & [= <- _] & _). by left.
Qed.

Lemma second_edge_unregisters_witness :
  let g := foldl add_root [] [IInt 1; IInt 2; IInt 3] in
  let g' := add (add g (IInt 1) (IInt 2)) (IInt 1) (IInt 3) in
  IInt 2 ≠ IInt 3
  ∧ left g' (IInt 1) = false ∧ ∀ l, (IInt 1, l) ∉ (iter 5 g').1.
Proof.
  cbv zeta. split; [discriminate|].
  apply (second_edge_unregisters (foldl add_root [] [IInt 1; IInt 2; IInt 3])
           (IInt 1) (IInt 2) (IInt 3) 5). discriminate.
Defined.

End RecChainExtra.

(** ** More about builder.py *)

Module BuilderExtra.
Import Builder BuilderFacts.

Section extra.

Variable env : collaborators.

(** *** The ledger *)

(** X12: an initialising call without payload on a history of [n] records
    returns and leaves [min (n + 1) (max_build_status + 1)] records: the
    new record last, before it the newest of the old ones, in their order. *)
Theorem register_status_init_keeps_newest (self : builder) (status : string)
    (transient : bool) (s : state) (b : list record) :
  bound self → st_build s = Some b → (0 ≤ max_build_status self)%Z →
  let run := register_status env self status transient true None s in
  let info := new_build_info env self status transient s in
  let kept := min (length b) (Z.to_nat (max_build_status self)) in
  run.1 = Ok ()
  ∧ st_build run.2 = Some (drop (length b - kept) b ++ [info])
  ∧ length (drop (length b - kept) b ++ [info])
    = min (length b + 1) (Z.to_nat (max_build_status self) + 1).
Proof.
  intros Hb Hs Hmax run info kept. unfold run.
  rewrite (register_status_init_plain env self status transient s b Hb Hs).
  simpl. split; [done|]. fold info.
  replace (Z.to_nat (Z.of_nat (length b) - max_build_status self))
    with (length b - kept) by (unfold kept; lia).
  split.
  - rewrite drop_app_le by lia. done.
  - rewrite length_app, length_drop. simpl. unfold kept. lia.
Qed.

(** X13: a call that does not initialise merges its payload into the last
    record, in place: it returns, the history keeps its length and its other
    records, the fields of the payload take the payload's values, and every
    field of the last record that neither the payload nor the status
    information names keeps its value. *)
Theorem register_status_merges_in_place (self : builder) (status : string)
    (transient : bool) (extra : record) (s : state) (b : list record)
    (r : record) :
  bound self → st_build s = Some (b ++ [r]) →
  let run := register_status env self status transient false (Some extra) s in
  let info := new_build_info env self status transient s in
  ∃ r', run.1 = Ok ()
        ∧ st_build run.2 = Some (b ++ [r'])
        ∧ (∀ k v, extra !! k = Some v → r' !! k = Some v)
        ∧ (∀ k, extra !! k = None → info !! k = None → r' !! k = r !! k)
        ∧ (extra !! "status" = None → r' !! "status" = Some (VStr status)).
Proof.
  intros Hb Hs run info.
  destruct (register_status_update_in_place env self status transient extra s b r
              Hb Hs) as (s' & Hrun & Hbuild).
  exists ((extra ∪ info) ∪ r). unfold run. rewrite Hrun. simpl.
  split; [done|]. split; [done|]. split; [|split].
  - intros k v Hk. by apply lookup_union_Some_l, lookup_union_Some_l.
  - intros k Hk Hi. rewrite lookup_union_r; [done|].
    by rewrite lookup_union_r.
  - intros Hk. apply lookup_union_Some_l. rewrite lookup_union_r by done.
    unfold info, new_build_info. cbv zeta.
    destruct transient; rewrite !lookup_insert_ne by done; apply lookup_insert_eq.
Qed.

(** X14: when the persisted document has no [build] key, an initialising
    call without payload still pushes its record, which creates the list,
    and then raises [KeyError]; with a payload the call raises [KeyError]
    before it writes anything. *)
Theorem register_status_without_build_key (self : builder) (status : string)
    (transient : bool) (extra : record) (s : state) :
  bound self → st_build s = None →
  let info := new_build_info env self status transient s in
  let plain := register_status env self status transient true None s in
  let loaded := register_status env self status transient true (Some extra) s in
  plain.1 = Raise (KeyError "build") ∧ st_build plain.2 = Some [info]
  ∧ loaded.1 = Raise (KeyError "build") ∧ st_build loaded.2 = None.
Proof.
  intros Hb Hs info plain loaded.
  assert (plain = (Raise (KeyError "build"),
                   set_build (Some [info])
                     (add_log INFO (MsgRegistered info) s))) as ->.
  { unfold plain, register_status. rewrite (config_truthy_bound self Hb).
    erewrite bind_ok by done. erewrite bind_ok by done.
    erewrite bind_ok by done. erewrite bind_ok by by apply find_one_eq.
    erewrite bind_ok by done. cbn [st_build add_log when]. rewrite Hs.
    erewrite bind_ok by by apply push_build_eq. simpl. by rewrite Hs. }
  assert (loaded = (Raise (KeyError "build"),
                    add_log INFO (MsgRegistered info) s)) as ->.
  { unfold loaded, register_status. rewrite (config_truthy_bound self Hb).
    erewrite bind_ok by done. erewrite bind_ok by done.
    erewrite bind_ok by done. erewrite bind_ok by by apply find_one_eq.
    cbn [st_build add_log]. rewrite Hs. done. }
  done.
Qed.

(** *** Mappers *)

(** X15: [init_mapper] asks a registered mapper whether it needs loading and
    loads it only on the answer true, once; for an id type without mapper
    it calls nothing. *)
Theorem init_mapper_loads_on_demand (self : builder) (id_type : option string)
    (s s' : state) (r : result ()) :
  init_mapper env self id_type s = (r, s') →
  ((id_type ∉ id_mappers self) ∧ st_events s' = st_events s
   ∧ r = Raise (KeyError (default "None" id_type)))
  ∨ (id_type ∈ id_mappers self
     ∧ need_load env (st_events s) id_type = Ok true
     ∧ st_events s' = st_events s ++ [ENeedLoad id_type; ELoad id_type])
  ∨ (id_type ∈ id_mappers self
     ∧ need_load env (st_events s) id_type ≠ Ok true
     ∧ st_events s' = st_events s ++ [ENeedLoad id_type]).
Proof.
  unfold init_mapper, when. intros Hrun.
  case_bool_decide as Hin; simpl in Hrun.
  - right.
    apply bind_inv in Hrun as [([] & s1 & [= <-] & Hrun)|(e & [=] & _)].
    apply bind_inv in Hrun as [(b & s1 & [= Hneed <-] & Hrun)|(e & [= Hneed <-] & _)].
    + destruct b.
      * left. split; [done|]. split; [done|].
        apply bind_inv in Hrun as [([] & s1 & [= <-] & Hrun)|(e & [=] & _)].
        unfold call in Hrun. simpl in Hrun.
        destruct (respond env _ _); injection Hrun as <- <-; simpl;
          by rewrite <-(assoc_L (++)).
      * right. split; [done|]. injection Hrun as <- <-. simpl.
        split; [|done]. by rewrite Hneed.
    + right. split; [done|]. simpl. split; [|done]. by rewrite Hneed.
  - left. apply bind_inv in Hrun as [([] & s1 & [=] & _)|(e & [= <- <-] & ->)].
    done.
Qed.

(** X16: [get_mapper_for_source] reports a source whose id type has no
    mapper as a [BuilderException], after reading the source master
    documents and without a call on any mapper; a source that the master
    documents do not list gives a plain [KeyError]. *)
Theorem get_mapper_for_source_errors (self : builder) (src_name : string)
    (s : state) (docs : gmap string (option string)) :
  get_src_master_docs env (st_events s) = Ok docs →
  let run := get_mapper_for_source env self src_name s in
  (docs !! src_name = None →
     run = (Raise (KeyError src_name), add_event EGetSrcMasterDocs s))
  ∧ (∀ id_type, docs !! src_name = Some id_type → id_type ∉ id_mappers self →
       run = (Raise (BuilderException
                       ("Found id_type '" +:+ default "None" id_type
                        +:+ "' but no mapper associated")),
              add_event EGetSrcMasterDocs s)).
Proof.
  intros Hdocs run. unfold run, get_mapper_for_source.
  split.
  - intros Hsrc. erewrite bind_ok; [|unfold ask; by rewrite Hdocs].
    by rewrite Hsrc.
  - intros id_type Hsrc Hin.
    erewrite bind_ok; [|unfold ask; by rewrite Hdocs]. rewrite Hsrc.
    erewrite bind_ok by done. unfold try_except, init_mapper, when.
    rewrite bool_decide_eq_false_2 by done. done.
Qed.

(** *** What [merge] calls and what it never calls *)

Lemma emits_merge_source (self : builder) (src : string) (bs : Z) :
  emits try_event (merge_source env self src bs).
Proof.
  unfold merge_source.
  apply emits_bind; [by apply emits_get_mapper_for_source|intros mapper].
  apply emits_bind.
  { destruct (doc_root_key self); [|apply emits_ret].
    apply emits_bind; [apply emits_lift|intros ?; apply emits_lift]. }
  intros upsert. apply emits_bind; [apply emits_when, emits_log|intros ?].
  apply emits_bind; [apply emits_get|intros s].
  destruct (doc_feeder env (st_events s) src bs) as [batches err].
  apply emits_bind; [by apply emits_event|intros ?].
  apply emits_bind.
  - apply emits_foldM. intros cnt docs.
    apply emits_bind; [by apply emits_ask|intros docs'].
    apply emits_bind; [by apply emits_ask|intros n]. apply emits_ret.
  - intros cnt. destruct err; [apply emits_raise|apply emits_ret].
Qed.

Lemma emits_merge_sources (self : builder) (v : value) (bs : Z) :
  emits try_event (merge_sources env self v bs).
Proof.
  unfold merge_sources.
  apply emits_bind; [apply emits_lift|intros names].
  apply emits_bind; [apply emits_lift|intros roots].
  apply emits_bind; [apply emits_lift|intros rset].
  apply emits_bind; [apply emits_log|intros ?].
  apply emits_bind.
  - apply emits_foldM. intros st [i src].
    apply emits_bind; [apply emits_register_status|intros ?].
    apply emits_bind; [apply emits_merge_source|intros ?]. apply emits_ret.
  - intros st. apply emits_bind; [by apply emits_call|intros ?]. apply emits_ret.
Qed.

Lemma emits_merge_try (self : builder) (v : value) (bs : Z) :
  emits try_event (merge_try env self v bs).
Proof.
  unfold merge_try.
  apply emits_bind; [apply emits_register_status|intros ?].
  apply emits_bind.
  { destruct (parallel_engine self); [|apply emits_merge_sources].
    destruct (truthy v); apply emits_raise. }
  intros st. apply emits_bind; [by apply emits_call|intros ?].
  apply emits_bind; [by apply emits_ask|intros ?].
  apply emits_register_status.
Qed.

Lemma emits_merge_except (I : event → Prop) (self : builder) (e : exn) :
  emits I (merge_except env self e).
Proof.
  unfold merge_except.
  apply emits_bind; [apply emits_log|intros ?].
  apply emits_bind; [apply emits_register_status|intros ?]. apply emits_raise.
Qed.

Lemma emits_validate_count (I : event → Prop) (self : builder) :
  I ECount → emits I (validate_count env self).
Proof.
  intros HI. unfold validate_count.
  destruct (_stats self) as [st|]; [|apply emits_ret].
  case_bool_decide; [apply emits_ret|].
  apply emits_bind; [apply emits_log|intros ?].
  apply emits_bind; [by apply emits_ask|intros cnt].
  apply emits_bind.
  { destruct (st !! "total_documents"); [apply emits_ret|apply emits_raise]. }
  intros total. case_bool_decide; [apply emits_log|].
  apply emits_bind; [|intros ?; apply emits_log].
  destruct (st !! "total_genes"); [apply emits_ret|apply emits_raise].
Qed.

Lemma emits_merge_given (self : builder) (sources target_name : value) (bs : Z) :
  sources ≠ VNone →
  emits (λ e, e ≠ EDrop ∧ e ≠ EPrepare) (merge env self sources target_name bs).
Proof.
  intros Hsrc. set (I := λ e, e ≠ EDrop ∧ e ≠ EPrepare).
  assert (Htry : ∀ A (m : M A), emits try_event m → emits I m).
  { intros A m Hm. eapply traces_mono; [exact Hm|]. simpl.
    intros _ evs Hf. eapply Forall_impl; [exact Hf|]. by intros []. }
  unfold merge.
  apply emits_bind; [apply emits_get|intros s].
  apply emits_bind; [by apply emits_modify|intros ?].
  apply emits_bind.
  { destruct sources; try done; apply emits_ret. }
  intros srcs. apply emits_bind; [by apply emits_when, emits_call|intros ?].
  apply emits_try_finally; [|by apply emits_validate_count].
  apply emits_try_except; [apply Htry, emits_merge_try|].
  intros e. apply emits_merge_except.
Qed.

(** X17: a merge of an explicit list of sources never drops and never
    re-initialises the target; only a merge without sources does. *)
Theorem merge_of_given_sources_keeps_target (self : builder)
    (sources target_name : value) (bs : Z) :
  sources ≠ VNone →
  emits (λ e, e ≠ EDrop ∧ e ≠ EPrepare) (merge env self sources target_name bs).
Proof. apply emits_merge_given. Qed.

Lemma slice_not_none (step sources v : value) :
  py_slice_from_index step sources = Ok v → v ≠ VNone.
Proof.
  unfold py_slice_from_index. intros Hv ->.
  destruct sources, step; try done; by case_match.
Qed.

(** X18: resuming never drops and never re-initialises the target: whatever
    the history holds, [merge_resume] makes no such call. *)
Theorem merge_resume_keeps_target (self : builder) :
  emits (λ e, e ≠ EDrop ∧ e ≠ EPrepare) (merge_resume env self).
Proof.
  set (I := λ e, e ≠ EDrop ∧ e ≠ EPrepare). unfold merge_resume, find_one.
  apply emits_bind.
  { apply emits_bind; [apply emits_config_getitem|intros ?].
    apply emits_bind; [apply emits_get|intros ?]. apply emits_ret. }
  intros cfg. apply emits_bind; [apply emits_get|intros s].
  destruct (last (default [] cfg)) as [build|]; [|apply emits_raise].
  cbv zeta.
  destruct (negb (truthy (default VNone (build !! "sources")))); [apply emits_raise|].
  destruct (negb (truthy (default VNone (build !! "step")))); [apply emits_raise|].
  apply emits_bind; [apply emits_lift|intros b].
  destruct (negb b); [apply emits_raise|].
  destruct (negb (truthy (default VNone (build !! "target_name")))); [apply emits_raise|].
  destruct (negb (bool_decide _)); [apply emits_raise|].
  intros s0 r s' Hrun.
  apply bind_inv in Hrun as [(v & s1 & [= Hv <-] & Hrun)|(e & [= Hv <-] & ->)].
  2:{ exists []. by rewrite app_nil_r. }
  revert s0 r s' Hrun.
  apply (emits_bind I); [by apply emits_call|intros ?].
  apply emits_bind; [apply emits_log|intros ?].
  apply emits_merge_given. by eapply slice_not_none.
Qed.

(** X19: without a [_stats] attribute (no method sets one) [merge] never asks
    the target for its count, whatever the sources and the outcome. *)
Theorem merge_never_counts_without_stats (self : builder)
    (sources target_name : value) (bs : Z) :
  _stats self = None →
  emits (λ e, e ≠ ECount) (merge env self sources target_name bs).
Proof. apply merge_without_stats_never_counts. Qed.

Lemma never_returns_bind_l {A B : Type} (m : M A) (f : A → M B) :
  never_returns m → never_returns (m ≫= f).
Proof.
  intros Hm s r s' Hrun.
  apply bind_inv in Hrun as [(a & s1 & Hm1 & _)|(e & _ & ->)]; [|eauto].
  by destruct (Hm _ _ _ Hm1).
Qed.

Lemma never_returns_bind_r {A B : Type} (m : M A) (f : A → M B) :
  (∀ a, never_returns (f a)) → never_returns (m ≫= f).
Proof.
  intros Hf s r s' Hrun.
  apply bind_inv in Hrun as [(a & s1 & _ & Hf1)|(e & _ & ->)]; [|eauto].
  by eapply Hf.
Qed.

Lemma never_returns_raise {A : Type} (e : exn) : never_returns (raise e : M A).
Proof. intros s r s' [= <- _]. eauto. Qed.

Lemma never_returns_try_except {A : Type} (body : M A) (catches : exn → bool)
    (handler : exn → M A) :
  never_returns body → (∀ e, never_returns (handler e)) →
  never_returns (try_except body catches handler).
Proof.
  intros Hb Hh s r s' Hrun. unfold try_except in Hrun.
  destruct (body s) as [[a|e] s1] eqn:Hbody.
  - by destruct (Hb _ _ _ Hbody).
  - destruct (catches e); [by eapply Hh|]. injection Hrun as <- _. eauto.
Qed.

Lemma never_returns_try_finally {A : Type} (body : M A) (fin : M unit) :
  never_returns body → never_returns (try_finally body fin).
Proof.
  intros Hb s r s' Hrun. unfold try_finally in Hrun.
  destruct (body s) as [r1 s1] eqn:Hbody. destruct (Hb _ _ _ Hbody) as [e ->].
  destruct (fin s1) as [[[]|e'] s2]; injection Hrun as <- _; eauto.
Qed.

Lemma merge_except_never_returns (self : builder) (e : exn) :
  never_returns (merge_except env self e).
Proof.
  unfold merge_except. apply never_returns_bind_r. intros ?.
  apply never_returns_bind_r. intros ?. apply never_returns_raise.
Qed.

(** X20: with a parallel engine [merge] never returns and never reads a
    source or writes to the target: every run ends in an exception. *)
Theorem merge_with_parallel_engine_fails (self : builder)
    (sources target_name : value) (bs : Z) (s s' : state) (r : result ()) :
  parallel_engine self = true →
  merge env self sources target_name bs s = (r, s') →
  (∃ e, r = Raise e)
  ∧ ∃ evs, st_events s' = st_events s ++ evs ∧ Forall quiet evs.
Proof.
  intros Hpar Hrun.
  assert (Htry_q : ∀ v, emits quiet (merge_try env self v bs)).
  { intros v. unfold merge_try. rewrite Hpar.
    apply emits_bind; [apply emits_register_status|intros ?].
    apply emits_bind; [destruct (truthy v); apply emits_raise|intros ?].
    apply emits_bind; [by apply emits_call|intros ?].
    apply emits_bind; [by apply emits_ask|intros ?].
    apply emits_register_status. }
  assert (Htry_n : ∀ v, never_returns (merge_try env self v bs)).
  { intros v. unfold merge_try. rewrite Hpar.
    apply never_returns_bind_r. intros ?. apply never_returns_bind_l.
    destruct (truthy v); apply never_returns_raise. }
  split.
  - revert s r s' Hrun. unfold merge.
    apply never_returns_bind_r. intros ?. apply never_returns_bind_r. intros ?.
    apply never_returns_bind_r. intros srcs. apply never_returns_bind_r. intros ?.
    apply never_returns_try_finally, never_returns_try_except; [apply Htry_n|].
    apply merge_except_never_returns.
  - revert s r s' Hrun. unfold merge.
    apply (emits_bind quiet); [apply emits_get|intros s].
    apply emits_bind; [by apply emits_modify|intros ?].
    apply emits_bind.
    { destruct sources; try apply emits_ret.
      apply emits_bind; [by apply emits_call|intros ?].
      apply emits_bind; [by apply emits_call|intros ?].
      apply emits_config_getitem. }
    intros srcs. apply emits_bind; [by apply emits_when, emits_call|intros ?].
    apply emits_try_finally; [|by apply emits_validate_count].
    apply emits_try_except; [apply Htry_q|]. intros e. apply emits_merge_except.
Qed.

(** *** What leaves the history alone *)

Lemma keeps_build_pure {A : Type} (m : M A) :
  (∀ s r s', m s = (r, s') → st_build s' = st_build s) → keeps_build m.
Proof. done. Qed.

Lemma keeps_build_ret {A : Type} (a : A) : keeps_build (mret a : M A).
Proof. by intros s r s' [= _ <-]. Qed.

Lemma keeps_build_raise {A : Type} (e : exn) : keeps_build (raise e : M A).
Proof. by intros s r s' [= _ <-]. Qed.

Lemma keeps_build_get : keeps_build get.
Proof. by intros s r s' [= _ <-]. Qed.

Lemma keeps_build_lift {A : Type} (x : result A) : keeps_build (lift x).
Proof. by intros s r s' [= _ <-]. Qed.

Lemma keeps_build_modify (f : state → state) :
  (∀ s, st_build (f s) = st_build s) → keeps_build (modify f).
Proof. intros Hf s r s' [= _ <-]. apply Hf. Qed.

Lemma keeps_build_log (l : level) (m : message) : keeps_build (log l m).
Proof. by apply keeps_build_modify. Qed.

Lemma keeps_build_call (e : event) : keeps_build (call env e).
Proof.
  intros s r s' Hrun. unfold call in Hrun.
  by destruct (respond env (st_events s) e); injection Hrun as _ <-.
Qed.

Lemma keeps_build_ask {A : Type} (e : event) (answer : list event → result A) :
  keeps_build (ask e answer).
Proof. by intros s r s' [= _ <-]. Qed.

Lemma keeps_build_bind {A B : Type} (m : M A) (f : A → M B) :
  keeps_build m → (∀ a, keeps_build (f a)) → keeps_build (m ≫= f).
Proof.
  intros Hm Hf s r s' Hrun.
  apply bind_inv in Hrun as [(a & s1 & Hm1 & Hf1)|(e & Hm1 & _)].
  - rewrite (Hf a _ _ _ Hf1). by eapply Hm.
  - by eapply Hm.
Qed.

Lemma keeps_build_when (b : bool) (m : M unit) :
  keeps_build m → keeps_build (when b m).
Proof. intros Hm. destruct b; [done|apply keeps_build_ret]. Qed.

Lemma keeps_build_foldM {A B : Type} (f : B → A → M B) (xs : list A) (b : B) :
  (∀ b x, keeps_build (f b x)) → keeps_build (foldM f b xs).
Proof.
  intros Hf. revert b. induction xs as [|x xs IH]; intros b; simpl.
  - apply keeps_build_ret.
  - apply keeps_build_bind; [apply Hf|]. intros b'. apply IH.
Qed.

Lemma keeps_build_try_except {A : Type} (body : M A) (catches : exn → bool)
    (handler : exn → M A) :
  keeps_build body → (∀ e, keeps_build (handler e)) →
  keeps_build (try_except body catches handler).
Proof.
  intros Hb Hh s r s' Hrun. unfold try_except in Hrun.
  destruct (body s) as [[a|e] s1] eqn:Hbody.
  - injection Hrun as _ <-. by eapply Hb.
  - destruct (catches e).
    + rewrite (Hh e _ _ _ Hrun). by eapply Hb.
    + injection Hrun as _ <-. by eapply Hb.
Qed.

Lemma keeps_build_merge_source (self : builder) (src : string) (bs : Z) :
  keeps_build (merge_source env self src bs).
Proof.
  unfold merge_source, get_mapper_for_source, init_mapper.
  apply keeps_build_bind.
  { apply keeps_build_bind; [apply keeps_build_ask|intros docs].
    apply keeps_build_bind.
    { destruct (docs !! src); [apply keeps_build_ret|apply keeps_build_raise]. }
    intros id_type. apply keeps_build_try_except; [|intros; apply keeps_build_raise].
    apply keeps_build_bind.
    { apply keeps_build_bind; [apply keeps_build_when, keeps_build_raise|intros ?].
      apply keeps_build_bind; [apply keeps_build_ask|intros ?].
      apply keeps_build_when, keeps_build_bind; [apply keeps_build_log|intros ?].
      apply keeps_build_call. }
    intros ?. apply keeps_build_bind; [apply keeps_build_log|intros ?].
    apply keeps_build_ret. }
  intros mapper. apply keeps_build_bind.
  { destruct (doc_root_key self); [|apply keeps_build_ret].
    apply keeps_build_bind; [apply keeps_build_lift|intros ?; apply keeps_build_lift]. }
  intros upsert.
  apply keeps_build_bind; [apply keeps_build_when, keeps_build_log|intros ?].
  apply keeps_build_bind; [apply keeps_build_get|intros s].
  destruct (doc_feeder env (st_events s) src bs) as [batches err].
  apply keeps_build_bind; [by apply keeps_build_modify|intros ?].
  apply keeps_build_bind.
  - apply keeps_build_foldM. intros cnt docs.
    apply keeps_build_bind; [apply keeps_build_ask|intros docs'].
    apply keeps_build_bind; [apply keeps_build_ask|intros n]. apply keeps_build_ret.
  - intros cnt. destruct err; [apply keeps_build_raise|apply keeps_build_ret].
Qed.

Lemma keeps_build_validate_count (self : builder) :
  keeps_build (validate_count env self).
Proof.
  unfold validate_count.
  destruct (_stats self) as [st|]; [|apply keeps_build_ret].
  case_bool_decide; [apply keeps_build_ret|].
  apply keeps_build_bind; [apply keeps_build_log|intros ?].
  apply keeps_build_bind; [apply keeps_build_ask|intros cnt].
  apply keeps_build_bind.
  { destruct (st !! "total_documents"); [apply keeps_build_ret|apply keeps_build_raise]. }
  intros total. case_bool_decide; [apply keeps_build_log|].
  apply keeps_build_bind; [|intros ?; apply keeps_build_log].
  destruct (st !! "total_genes"); [apply keeps_build_ret|apply keeps_build_raise].
Qed.

(** *** The record of a merge that returns *)

Lemma register_status_extra_nonempty (self : builder) (status : string)
    (transient init : bool) (extra : record) (s s' : state) :
  bound self →
  register_status env self status transient init (Some extra) s = (Ok (), s') →
  ∃ b r, st_build s = Some (b ++ [r]).
Proof.
  intros Hb Hrun. destruct (st_build s) as [b|] eqn:Hs.
  - destruct b as [|x b] using rev_ind; [|eauto].
    by rewrite (register_status_extra_empty env self status transient init extra s
                  Hb Hs) in Hrun.
  - unfold register_status in Hrun. rewrite (config_truthy_bound self Hb) in Hrun.
    erewrite bind_ok in Hrun by done. erewrite bind_ok in Hrun by done.
    erewrite bind_ok in Hrun by done.
    erewrite bind_ok in Hrun by by apply find_one_eq.
    cbn [st_build add_log] in Hrun. by rewrite Hs in Hrun.
Qed.

Lemma merge_ok_last_record (self : builder) (sources target_name : value)
    (bs : Z) (s s' : state) :
  bound self →
  merge env self sources target_name bs s = (Ok (), s') →
  ∃ b r stats versions,
    st_build s' = Some (b ++ [r])
    ∧ r !! "status" = Some (VStr "success")
    ∧ r !! "stats" = Some (VCounts stats)
    ∧ r !! "src_versions" = Some (VVersions versions).
Proof.
  intros Hb Hrun. unfold merge in Hrun.
  apply bind_inv in Hrun as [(s0 & s1 & _ & Hrun)|(e & _ & [=])].
  apply bind_inv in Hrun as [([] & s2 & _ & Hrun)|(e & _ & [=])].
  apply bind_inv in Hrun as [(srcs & s3 & _ & Hrun)|(e & _ & [=])].
  apply bind_inv in Hrun as [([] & s4 & _ & Hrun)|(e & _ & [=])].
  unfold try_finally in Hrun.
  destruct (try_except _ _ _ s4) as [rb s5] eqn:Hbody.
  destruct (validate_count env self s5) as [[[]|e] s6] eqn:Hfin; [|done].
  injection Hrun as -> ->.
  rewrite (keeps_build_validate_count self _ _ _ Hfin).
  unfold try_except in Hbody.
  destruct (merge_try env self srcs bs s4) as [[[]|e] s7] eqn:Htry.
  2:{ destruct (caught_by_merge e); [|done].
      by destruct (merge_except_never_returns self e _ _ _ Hbody). }
  injection Hbody as <-. unfold merge_try in Htry.
  apply bind_inv in Htry as [([] & t1 & _ & Htry)|(e & _ & [=])].
  apply bind_inv in Htry as [(stats & t2 & _ & Htry)|(e & _ & [=])].
  apply bind_inv in Htry as [([] & t3 & _ & Htry)|(e & _ & [=])].
  apply bind_inv in Htry as [(versions & t4 & _ & Htry)|(e & _ & [=])].
  destruct (register_status_extra_nonempty _ _ _ _ _ _ _ Hb Htry) as (b & r & Hs).
  destruct (register_status_update_in_place env self "success" false
              (<["stats" := VCounts stats]>
                 (<["src_versions" := VVersions versions]> ∅)) t4 b r Hb Hs)
    as (s'' & Hrun & Hbuild).
  rewrite Hrun in Htry. injection Htry as <-.
  eexists b, _, stats, versions. split; [exact Hbuild|]. split; [|split].
  - apply lookup_union_Some_l. rewrite lookup_union_r.
    + unfold new_build_info. cbv zeta iota.
      rewrite !lookup_insert_ne by done. apply lookup_insert_eq.
    + by rewrite !lookup_insert_ne.
  - apply lookup_union_Some_l, lookup_union_Some_l, lookup_insert_eq.
  - apply lookup_union_Some_l, lookup_union_Some_l.
    rewrite lookup_insert_ne by done. apply lookup_insert_eq.
Qed.

Lemma register_status_events (self : builder) (status : string)
    (transient init : bool) (extra : option record) (s s' : state)
    (r : result ()) :
  register_status env self status transient init extra s = (r, s') →
  st_events s' = st_events s.
Proof.
  intros Hrun.
  destruct (emits_register_status env (λ _, False) self status transient init
              extra _ _ _ Hrun) as (evs & -> & Hall).
  destruct Hall; [by rewrite app_nil_r|done].
Qed.

(** X21: when [merge] returns, the last record of the history is terminal
    and carries the results of this run: its status is [success], its
    statistics are those [merge_sources] returned for the sources the merge
    works on, and its source versions are those the source backend reported
    after [post_merge]. *)
Theorem merge_returns_with_success_record (self : builder)
    (sources target_name : value) (bs : Z) (s s' : state) :
  bound self →
  merge env self sources target_name bs s = (Ok (), s') →
  ∃ srcs t1 t2 stats versions pre tail b r,
    merge_sources_arg self sources = Some srcs
    ∧ st_events t1 = st_events s ++ pre
    ∧ Forall (λ e, e = EDrop ∨ e = EPrepare ∨ e = ESetTargetName target_name) pre
    ∧ merge_sources env self srcs bs t1 = (Ok stats, t2)
    ∧ get_src_versions env (st_events t2 ++ [EPostMerge]) = Ok versions
    ∧ st_events s' = st_events t2 ++ EPostMerge :: EGetSrcVersions :: tail
    ∧ st_build s' = Some (b ++ [r])
    ∧ r !! "status" = Some (VStr "success")
    ∧ r !! "stats" = Some (VCounts stats)
    ∧ r !! "src_versions" = Some (VVersions versions).
Proof.
  intros Hb Hrun. unfold merge in Hrun.
  set (P := λ e, e = EDrop ∨ e = EPrepare ∨ e = ESetTargetName target_name).
  apply bind_inv in Hrun as [(s0 & s1 & [= <- <-] & Hrun)|(e & [=] & _)].
  apply bind_inv in Hrun as [([] & s2 & [= <-] & Hrun)|(e & [=] & _)].
  apply bind_inv in Hrun as [(srcs & s3 & Hsrc & Hrun)|(e & _ & [=])].
  apply bind_inv in Hrun as [([] & s4 & Hset & Hrun)|(e & _ & [=])].
  assert (merge_sources_arg self sources = Some srcs
          ∧ ∃ pre1, st_events s3 = st_events s ++ pre1 ∧ Forall P pre1)
    as [Harg (pre1 & Hpre1 & HP1)].
  { destruct sources;
      try (injection Hsrc as <- <-; split; [done|]; exists [];
           simpl; by rewrite app_nil_r).
    apply bind_inv in Hsrc as [([] & u1 & Hd & Hsrc)|(e & _ & [=])].
    apply bind_inv in Hsrc as [([] & u2 & Hp & Hsrc)|(e & _ & [=])].
    unfold call in Hd, Hp.
    destruct (respond env _ EDrop); [done|]. injection Hd as <-.
    destruct (respond env _ EPrepare); [done|]. injection Hp as <-.
    unfold config_getitem in Hsrc. destruct Hb as (c & Hc & _).
    unfold merge_sources_arg. rewrite Hc in Hsrc |- *. simpl.
    destruct (c !! "sources"); [|done]. injection Hsrc as <- <-.
    split; [done|]. exists [EDrop; EPrepare]. simpl.
    rewrite <-(assoc_L (++)). split; [done|].
    constructor; [by left|]. constructor; [right; by left|constructor]. }
  assert (∃ pre2, st_events s4 = st_events s3 ++ pre2 ∧ Forall P pre2)
    as (pre2 & Hpre2 & HP2).
  { unfold when, call in Hset. destruct (truthy target_name).
    - destruct (respond env _ _); [done|]. injection Hset as <-.
      exists [ESetTargetName target_name]. split; [done|].
      constructor; [right; by right|constructor].
    - injection Hset as <-. exists []. by rewrite app_nil_r. }
  unfold try_finally in Hrun.
  destruct (try_except _ _ _ s4) as [rb s5] eqn:Hbody.
  destruct (validate_count env self s5) as [[[]|e] s6] eqn:Hfin; [|done].
  injection Hrun as -> ->.
  rewrite (keeps_build_validate_count self _ _ _ Hfin).
  destruct (emits_validate_count (λ _, True) self I _ _ _ Hfin)
    as (tail & Htail & _).
  unfold try_except in Hbody.
  destruct (merge_try env self srcs bs s4) as [[[]|e] s7] eqn:Htry.
  2:{ destruct (caught_by_merge e); [|done].
      by destruct (merge_except_never_returns self e _ _ _ Hbody). }
  injection Hbody as <-. unfold merge_try in Htry.
  apply bind_inv in Htry as [([] & t1 & Hreg & Htry)|(e & _ & [=])].
  apply bind_inv in Htry as [(stats & t2 & Hms & Htry)|(e & _ & [=])].
  apply bind_inv in Htry as [([] & t3 & Hpost & Htry)|(e & _ & [=])].
  apply bind_inv in Htry as [(versions & t4 & [= Hver <-] & Htry)|(e & _ & [=])].
  destruct (parallel_engine self); [by destruct (truthy srcs)|].
  unfold call in Hpost. destruct (respond env _ EPostMerge); [done|].
  injection Hpost as <-. simpl in Hver.
  pose proof (register_status_events _ _ _ _ _ _ _ _ Hreg) as Ht1.
  pose proof (register_status_events _ _ _ _ _ _ _ _ Htry) as Hs7.
  destruct (register_status_extra_nonempty _ _ _ _ _ _ _ Hb Htry) as (b & r & Hs).
  destruct (register_status_update_in_place env self "success" false
              (<["stats" := VCounts stats]>
                 (<["src_versions" := VVersions versions]> ∅)) _ b r Hb Hs)
    as (s'' & Hreg2 & Hbuild).
  rewrite Hreg2 in Htry. injection Htry as <-.
  eexists srcs, t1, t2, stats, versions, (pre1 ++ pre2), tail, b, _.
  split; [done|]. split.
  { rewrite Ht1, Hpre2, Hpre1. by rewrite <-(assoc_L (++)). }
  split; [by apply Forall_app|]. split; [done|]. split; [done|]. split.
  { rewrite Htail, Hs7. simpl. by rewrite <-!(assoc_L (++)). }
  split; [exact Hbuild|]. split; [|split].
  - apply lookup_union_Some_l. rewrite lookup_union_r.
    + unfold new_build_info. cbv zeta iota.
      rewrite !lookup_insert_ne by done. apply lookup_insert_eq.
    + by rewrite !lookup_insert_ne.
  - apply lookup_union_Some_l, lookup_union_Some_l, lookup_insert_eq.
  - apply lookup_union_Some_l, lookup_union_Some_l.
    rewrite lookup_insert_ne by done. apply lookup_insert_eq.
Qed.

(** X22: after a [merge] that returned, [get_last_src_build_stats] returns
    the statistics that merge recorded, or nothing when they are empty; it
    returns nothing, without reading the history, as long as no [src_build]
    attribute is set. *)
Theorem stats_after_merge (self : builder) (sources target_name : value)
    (bs : Z) (s s' : state) :
  bound self →
  merge env self sources target_name bs s = (Ok (), s') →
  ∃ b r stats,
    st_build s' = Some (b ++ [r]) ∧ r !! "stats" = Some (VCounts stats)
    ∧ get_last_src_build_stats self true s'
      = (Ok (if bool_decide (stats = ∅) then VNone else VCounts stats), s')
    ∧ get_last_src_build_stats self false s' = (Ok VNone, s').
Proof.
  intros Hb Hrun.
  destruct (merge_ok_last_record self sources target_name bs s s' Hb Hrun)
    as (b & r & stats & versions & Hs & Hstatus & Hstats & _).
  exists b, r, stats. split; [done|]. split; [done|]. split; [|done].
  unfold get_last_src_build_stats.
  erewrite bind_ok by by apply find_one_eq.
  rewrite Hs. unfold last_record. rewrite last_snoc.
  erewrite bind_ok by done. rewrite Hstatus, Hstats. simpl.
  by case_bool_decide.
Qed.

(** *** The record of a merge that fails *)

Lemma preserves_build_keeps {A : Type} (J : option (list record) → Prop) (m : M A) :
  keeps_build m → preserves_build J m.
Proof. intros Hm s r s' HJ Hrun. by rewrite (Hm _ _ _ Hrun). Qed.

Lemma preserves_build_bind {A B : Type} (J : option (list record) → Prop)
    (m : M A) (f : A → M B) :
  preserves_build J m → (∀ a, preserves_build J (f a)) →
  preserves_build J (m ≫= f).
Proof.
  intros Hm Hf s r s' HJ Hrun.
  apply bind_inv in Hrun as [(a & s1 & Hm1 & Hf1)|(e & Hm1 & _)].
  - eapply Hf; [|done]. by eapply Hm.
  - by eapply Hm.
Qed.

Lemma preserves_build_foldM {A B : Type} (J : option (list record) → Prop)
    (f : B → A → M B) (xs : list A) (b : B) :
  (∀ b x, x ∈ xs → preserves_build J (f b x)) →
  preserves_build J (foldM f b xs).
Proof.
  revert b. induction xs as [|x xs IH]; intros b Hf; simpl.
  - apply preserves_build_keeps, keeps_build_ret.
  - apply preserves_build_bind; [apply Hf; by left|].
    intros b'. apply IH. intros b'' y Hy. apply Hf. by right.
Qed.

Lemma new_build_info_sources_step (self : builder) (status : string)
    (transient : bool) (s : state) :
  new_build_info env self status transient s !! "sources" = None
  ∧ new_build_info env self status transient s !! "step" = None.
Proof.
  unfold new_build_info. cbv zeta.
  destruct transient; by rewrite !lookup_insert_ne.
Qed.

Lemma register_status_preserves_last (self : builder) (status : string)
    (transient : bool) (extra : record) (P : record → Prop) :
  bound self →
  (∀ s r, P r → P ((extra ∪ new_build_info env self status transient s) ∪ r)) →
  preserves_build (last_has P)
    (register_status env self status transient false (Some extra)).
Proof.
  intros Hb HP s r s' (b & r0 & Hs & Hr0) Hrun.
  destruct (register_status_update_in_place env self status transient extra s b r0
              Hb Hs) as (s'' & Hrun' & Hbuild).
  rewrite Hrun' in Hrun. injection Hrun as _ <-.
  exists b. eexists. split; [exact Hbuild|]. by apply HP.
Qed.

Lemma attempt_record_update (names : list string) (extra info r : record) :
  info !! "sources" = None → info !! "step" = None →
  extra !! "sources" = None →
  (extra !! "step" = None ∨ ∃ st, extra !! "step" = Some (VStr st) ∧ st ∈ names) →
  attempt_record names r → attempt_record names ((extra ∪ info) ∪ r).
Proof.
  intros Hi1 Hi2 He1 He2 [Hsrc (st & Hst & Hin)]. split.
  - rewrite lookup_union_r; [done|]. by rewrite lookup_union_r.
  - destruct He2 as [He2|(st' & He2 & Hin')].
    + exists st. split; [|done]. rewrite lookup_union_r; [done|].
      by rewrite lookup_union_r.
    + exists st'. split; [|by right].
      by apply lookup_union_Some_l, lookup_union_Some_l.
Qed.

Lemma merge_sources_preserves_attempt (self : builder) (names : list string)
    (bs : Z) :
  set_order_ok env → bound self →
  preserves_build (last_has (attempt_record names))
    (merge_sources env self (VList names) bs).
Proof.
  intros Hord Hb s r s' HJ Hrun. unfold merge_sources in Hrun.
  erewrite bind_ok in Hrun by done.
  match type of Hrun with
  | ?m _ = _ =>
      enough (preserves_build (last_has (attempt_record names)) m) as Hp
        by exact (Hp _ _ _ HJ Hrun)
  end.
  clear s r s' HJ Hrun.
  apply preserves_build_bind; [apply preserves_build_keeps, keeps_build_lift|].
  intros roots.
  apply preserves_build_bind; [apply preserves_build_keeps, keeps_build_lift|].
  intros rset. cbv zeta.
  apply preserves_build_bind; [apply preserves_build_keeps, keeps_build_log|].
  intros ?. apply preserves_build_bind.
  2:{ intros st. apply preserves_build_keeps, keeps_build_bind;
        [apply keeps_build_call|intros ?; apply keeps_build_ret]. }
  apply preserves_build_foldM. intros st [i src] Hin.
  apply preserves_build_bind.
  - apply register_status_preserves_last; [done|]. intros s0 r0.
    destruct (new_build_info_sources_step self "success" true s0) as [H1 H2].
    apply attempt_record_update; [done|done|by rewrite !lookup_insert_ne|].
    right. exists src. split; [apply lookup_insert_eq|].
    apply elem_of_zip_r in Hin.
    destruct (merge_order_spec env (list_to_set names) rset Hord)
      as (rs & os & Horder & Hrs & Hos & _).
    rewrite Horder in Hin. apply elem_of_app in Hin as [Hin%Hrs|Hin%Hos];
      destruct Hin as [Hin _]; by apply elem_of_list_to_set in Hin.
  - intros ?. apply preserves_build_keeps, keeps_build_bind;
      [apply keeps_build_merge_source|intros ?; apply keeps_build_ret].
Qed.

Lemma merge_try_attempt (self : builder) (names : list string) (bs : Z)
    (s s' : state) (r : result ()) (b0 : list record) (r0 : record) :
  set_order_ok env → bound self → (0 ≤ max_build_status self)%Z →
  st_build s = Some (b0 ++ [r0]) →
  merge_try env self (VList names) bs s = (r, s') →
  last_has (attempt_record names) (st_build s').
Proof.
  intros Hord Hb Hmax Hs Hrun. unfold merge_try in Hrun.
  set (extra := (<["step" := VStr "init"]> (<["sources" := VList names]> ∅)) : record)
    in Hrun.
  pose proof (register_status_extra env self "building" true true extra s
                (b0 ++ [r0]) r0 Hb Hs (last_snoc _ _)) as Hreg.
  cbv zeta in Hreg. erewrite bind_ok in Hrun by exact Hreg.
  match type of Hrun with
  | ?m _ = _ =>
      assert (preserves_build (last_has (attempt_record names)) m) as Hp
  end.
  - apply preserves_build_bind.
    { destruct (parallel_engine self);
        [|by apply merge_sources_preserves_attempt].
      apply preserves_build_keeps. destruct (truthy _); apply keeps_build_raise. }
    intros st. apply preserves_build_bind;
      [apply preserves_build_keeps, keeps_build_call|intros ?].
    apply preserves_build_bind;
      [apply preserves_build_keeps, keeps_build_ask|intros versions].
    apply register_status_preserves_last; [done|]. intros s0 r1.
    destruct (new_build_info_sources_step self "success" false s0) as [H1 H2].
    apply attempt_record_update; [done|done|by rewrite !lookup_insert_ne|].
    left. by rewrite !lookup_insert_ne.
  - eapply Hp; [|exact Hrun].
    simpl. rewrite removelast_last.
    rewrite drop_app_le by (rewrite !length_app; simpl; lia).
    eexists _, _. split; [done|]. split.
    + apply lookup_union_Some_l. unfold extra.
      rewrite lookup_insert_ne by done. apply lookup_insert_eq.
    + exists "init". split; [|by left].
      apply lookup_union_Some_l, lookup_insert_eq.
Qed.

Lemma merge_except_keeps_attempt (self : builder) (e : exn) (s : state)
    (b : list record) (r : record) :
  bound self → st_build s = Some (b ++ [r]) →
  ∃ s' r',
    merge_except env self e s = (Raise e, s')
    ∧ st_build s' = Some (b ++ [r'])
    ∧ r' !! "status" = Some (VStr "failed")
    ∧ r' !! "err" = Some (VStr (exn_repr e))
    ∧ r' !! "sources" = r !! "sources"
    ∧ r' !! "step" = r !! "step".
Proof.
  intros Hb Hs. unfold merge_except.
  erewrite bind_ok by done.
  destruct (register_status_update_in_place env self "failed" false
              (<["err" := VStr (exn_repr e)]> ∅)
              (add_log ERROR (MsgTraceback e) s) b r Hb Hs) as (s' & Hreg & Hbuild).
  erewrite bind_ok by exact Hreg.
  destruct (new_build_info_sources_step self "failed" false
              (add_log ERROR (MsgTraceback e) s)) as [H1 H2].
  eexists _, _. split; [done|]. split; [exact Hbuild|]. split; [|split; [|split]].
  - apply lookup_union_Some_l. rewrite lookup_union_r.
    + unfold new_build_info. cbv zeta iota.
      rewrite !lookup_insert_ne by done. apply lookup_insert_eq.
    + by rewrite lookup_insert_ne.
  - apply lookup_union_Some_l, lookup_union_Some_l, lookup_insert_eq.
  - rewrite lookup_union_r; [done|]. by rewrite lookup_union_r.
  - rewrite lookup_union_r; [done|]. by rewrite lookup_union_r.
Qed.

(** X23: when a [merge] of the listed sources ends in an exception that its
    [except] clause catches, on a history that is not empty, then either
    binding the target name raised it, before anything was registered, or
    the attempt's record, the last of the history, is terminal: status
    [failed], the description of the exception, the source list as given,
    and as step [init] or one of the sources. *)
Theorem merge_failure_record (self : builder) (names : list string)
    (target_name : value) (bs : Z) (s s' : state) (e : exn)
    (b0 : list record) (r0 : record) :
  set_order_ok env → bound self → _stats self = None →
  (0 ≤ max_build_status self)%Z →
  st_build s = Some (b0 ++ [r0]) →
  merge env self (VList names) target_name bs s = (Raise e, s') →
  caught_by_merge e = true →
  (truthy target_name = true
   ∧ respond env (st_events s) (ESetTargetName target_name) = Some e
   ∧ st_build s' = st_build s)
  ∨ ∃ b r st,
      st_build s' = Some (b ++ [r])
      ∧ r !! "status" = Some (VStr "failed")
      ∧ r !! "err" = Some (VStr (exn_repr e))
      ∧ r !! "sources" = Some (VList names)
      ∧ r !! "step" = Some (VStr st)
      ∧ (st = "init" ∨ st ∈ names).
Proof.
  intros Hord Hb Hstats Hmax Hs Hrun Hcaught. unfold merge in Hrun.
  apply bind_inv in Hrun as [(s0 & s1 & [= <- <-] & Hrun)|(e0 & [=] & _)].
  apply bind_inv in Hrun as [([] & s2 & [= <-] & Hrun)|(e0 & [=] & _)].
  apply bind_inv in Hrun as [(srcs & s3 & [= <- <-] & Hrun)|(e0 & [=] & _)].
  apply bind_inv in Hrun as [([] & s4 & Hset & Hrun)|(e0 & Hset & [= <-])].
  2:{ left. unfold when, call in Hset.
      destruct (truthy target_name); [|done]. simpl in Hset.
      destruct (respond env (st_events s) (ESetTargetName target_name)) as [x|];
        [|done]. by injection Hset as <- <-. }
  right.
  assert (st_build s4 = Some (b0 ++ [r0])) as Hs4.
  { rewrite <-Hs. by apply (keeps_build_when _ _ (keeps_build_call _) _ _ _ Hset). }
  unfold try_finally in Hrun.
  destruct (try_except _ _ _ s4) as [rb s5] eqn:Hbody.
  rewrite (validate_count_no_stats env self s5 Hstats) in Hrun.
  injection Hrun as -> ->. unfold try_except in Hbody.
  destruct (merge_try env self (VList names) bs s4) as [[[]|e'] s7] eqn:Htry; [done|].
  destruct (merge_try_attempt self names bs s4 s7 _ b0 r0 Hord Hb Hmax Hs4 Htry)
    as (b & r & Hs7 & Hsrc & st & Hst & Hin).
  destruct (caught_by_merge e') eqn:Hc.
  2:{ injection Hbody as -> _. congruence. }
  destruct (merge_except_keeps_attempt self e' s7 b r Hb Hs7)
    as (s'' & r' & Hexc & Hbuild & Hstatus & Herr & Hsrc' & Hst').
  rewrite Hexc in Hbody. injection Hbody as -> ->.
  exists b, r', st. rewrite Hsrc', Hst'. done.
Qed.

(** *** The statistics of a merge *)

Lemma foldM_ok {A B : Type} (f : B → A → M B) (P : list A → B → Prop)
    (xs : list A) :
  (∀ seen x b s b' s', P seen b → f b x s = (Ok b', s') → P (seen ++ [x]) b') →
  ∀ seen b s b' s',
    P seen b → foldM f b xs s = (Ok b', s') → P (seen ++ xs) b'.
Proof.
  intros Hf. induction xs as [|x xs IH]; intros seen b s b' s' HP Hrun; simpl in Hrun.
  - injection Hrun as <- <-. by rewrite app_nil_r.
  - apply bind_inv in Hrun as [(b1 & s1 & Hx & Hrun)|(e & _ & [=])].
    rewrite (assoc_L (++) seen [x] xs : seen ++ x :: xs = (seen ++ [x]) ++ xs).
    eapply IH; [|exact Hrun]. by eapply Hf.
Qed.

Lemma merge_source_result (self : builder) (src_name : string) (bs : Z)
    (s s' : state) (stats : gmap string Z) :
  merge_source env self src_name bs s = (Ok stats, s') →
  ∃ cnt, stats = {[ "total_" +:+ src_name := cnt ]}.
Proof.
  intros Hrun. unfold merge_source in Hrun.
  apply bind_inv in Hrun as [(mapper & s1 & _ & Hrun)|(e & _ & [=])].
  cbv zeta in Hrun.
  apply bind_inv in Hrun as [(upsert & s2 & _ & Hrun)|(e & _ & [=])].
  apply bind_inv in Hrun as [([] & s3 & _ & Hrun)|(e & _ & [=])].
  apply bind_inv in Hrun as [(s4 & s5 & _ & Hrun)|(e & _ & [=])].
  destruct (doc_feeder env (st_events s4) src_name bs) as [batches err].
  apply bind_inv in Hrun as [([] & s6 & _ & Hrun)|(e & _ & [=])].
  apply bind_inv in Hrun as [(cnt & s7 & _ & Hrun)|(e & _ & [=])].
  destruct err; [done|]. injection Hrun as <- _. by exists cnt.
Qed.

(** X24: the statistics [merge_sources] returns for a list of sources have
    one entry per source and nothing else: the keys are the names of the
    listed sources, each prefixed with [total_]. *)
Theorem merge_sources_stats_keys (self : builder) (names : list string)
    (bs : Z) (s s' : state) (stats : gmap string Z) :
  set_order_ok env →
  merge_sources env self (VList names) bs s = (Ok stats, s') →
  ∀ k, is_Some (stats !! k) ↔ ∃ n, n ∈ names ∧ k = "total_" +:+ n.
Proof.
  intros Hord Hrun. unfold merge_sources in Hrun.
  apply bind_inv in Hrun as [(ns & s1 & [= <- <-] & Hrun)|(e & _ & [=])].
  apply bind_inv in Hrun as [(roots & s2 & _ & Hrun)|(e & _ & [=])].
  apply bind_inv in Hrun as [(rset & s3 & _ & Hrun)|(e & _ & [=])].
  cbv zeta in Hrun.
  apply bind_inv in Hrun as [([] & s4 & _ & Hrun)|(e & _ & [=])].
  apply bind_inv in Hrun as [(st & s5 & Hloop & Hrun)|(e & _ & [=])].
  apply bind_inv in Hrun as [([] & s6 & _ & [= <- _])|(e & _ & [=])].
  set (order := merge_order env (list_to_set names) rset) in *.
  pose (P := λ (seen : list (nat * string)) (m : gmap string Z),
          ∀ k, is_Some (m !! k) ↔ ∃ n, n ∈ seen.*2 ∧ k = "total_" +:+ n).
  assert (P ([] ++ zip (seq 0 (length order)) order) st) as HP.
  { eapply (foldM_ok _ P); [|clear|exact Hloop].
    - intros seen [i src] b t b' t' Hb Hstep.
      apply bind_inv in Hstep as [([] & t1 & _ & Hstep)|(e & _ & [=])].
      apply bind_inv in Hstep as [(src_stats & t2 & Hsrc & [= <- _])|(e & _ & [=])].
      apply merge_source_result in Hsrc as [cnt ->].
      intros k. rewrite lookup_union_is_Some, (Hb k), fmap_app. simpl.
      setoid_rewrite elem_of_app. setoid_rewrite list_elem_of_singleton.
      rewrite lookup_singleton_is_Some. split.
      + intros [<-|(n & Hn & ->)]; eauto.
      + intros (n & [Hn| ->] & ->); eauto.
    - intros k. rewrite lookup_empty. simpl. split; [by intros []|].
      intros (n & Hn & _). by apply elem_of_nil in Hn. }
  intros k. rewrite (HP k). simpl.
  rewrite snd_zip by (rewrite length_seq; lia).
  destruct (merge_order_spec env (list_to_set names) rset Hord)
    as (rs & os & Horder & Hrs & Hos & _).
  fold order in Horder. rewrite Horder.
  assert (∀ n, n ∈ rs ++ os ↔ n ∈ names) as Hin.
  { intros n. rewrite elem_of_app, Hrs, Hos, elem_of_list_to_set.
    destruct (decide (n ∈ rset)); tauto. }
  by setoid_rewrite Hin.
Qed.

End extra.

(** *** The general statements at work *)

Lemma register_status_init_keeps_newest_witness :
  let self := example_builder 1 None in
  let b := [finished_record "failed" "geneinfo"; finished_record "success" "refseq"] in
  let s := example_state b in
  let run := register_status example_env self "building" true true None s in
  let info := new_build_info example_env self "building" true s in
  bound self ∧ st_build s = Some b ∧ (0 ≤ max_build_status self)%Z
  ∧ run.1 = Ok ()
  ∧ st_build run.2 = Some (drop (length b - min (length b) (Z.to_nat 1)) b ++ [info])
  ∧ length (drop (length b - min (length b) (Z.to_nat 1)) b ++ [info])
    = min (length b + 1) (Z.to_nat 1 + 1).
Proof.
  cbv zeta. split; [apply example_bound|]. split; [reflexivity|].
  split; [vm_compute; discriminate|].
  apply (register_status_init_keeps_newest example_env (example_builder 1 None) "building" true
           (example_state [finished_record "failed" "geneinfo";
                           finished_record "success" "refseq"])).
  - apply example_bound.
  - reflexivity.
  - vm_compute. discriminate.
Defined.

Lemma register_status_merges_in_place_witness :
  let self := example_builder 10 None in
  let r := finished_record "success" "refseq" in
  let s := example_state [r] in
  let extra : record := <["step" := VStr "geneinfo"]> ∅ in
  let run := register_status example_env self "success" true false (Some extra) s in
  let info := new_build_info example_env self "success" true s in
  bound self ∧ st_build s = Some ([] ++ [r])
  ∧ ∃ r', run.1 = Ok ()
          ∧ st_build run.2 = Some ([] ++ [r'])
          ∧ (∀ k v, extra !! k = Some v → r' !! k = Some v)
          ∧ (∀ k, extra !! k = None → info !! k = None → r' !! k = r !! k)
          ∧ (extra !! "status" = None → r' !! "status" = Some (VStr "success")).
Proof.
  cbv zeta. split; [apply example_bound|]. split; [reflexivity|].
  apply (register_status_merges_in_place example_env (example_builder 10 None)
           "success" true (<["step" := VStr "geneinfo"]> ∅)
           (example_state [finished_record "success" "refseq"]) []
           (finished_record "success" "refseq")).
  - apply example_bound.
  - reflexivity.
Defined.

Lemma register_status_without_build_key_witness :
  let self := example_builder 10 None in
  let s := {| st_name := "example"; st_build := None; st_events := [];
              st_log := []; st_t0 := 0 |} in
  let extra : record := <["step" := VStr "init"]> ∅ in
  let info := new_build_info example_env self "building" true s in
  let plain := register_status example_env self "building" true true None s in
  let loaded := register_status example_env self "building" true true (Some extra) s in
  bound self ∧ st_build s = None
  ∧ plain.1 = Raise (KeyError "build") ∧ st_build plain.2 = Some [info]
  ∧ loaded.1 = Raise (KeyError "build") ∧ st_build loaded.2 = None.
Proof.
  cbv zeta. split; [apply example_bound|]. split; [reflexivity|].
  apply (register_status_without_build_key example_env (example_builder 10 None)
           "building" true (<["step" := VStr "init"]> ∅)).
  - apply example_bound.
  - reflexivity.
Defined.

Lemma init_mapper_loads_on_demand_witness :
  let self := example_builder 10 None in
  let s := example_state [] in
  let run := init_mapper example_env self None s in
  run = (run.1, run.2)
  ∧ (((None ∉ id_mappers self) ∧ st_events run.2 = st_events s
      ∧ run.1 = Raise (KeyError (default "None" None)))
     ∨ (None ∈ id_mappers self
        ∧ need_load example_env (st_events s) None = Ok true
        ∧ st_events run.2 = st_events s ++ [ENeedLoad None; ELoad None])
     ∨ (None ∈ id_mappers self
        ∧ need_load example_env (st_events s) None ≠ Ok true
        ∧ st_events run.2 = st_events s ++ [ENeedLoad None])).
Proof.
  cbv zeta. split; [apply surjective_pairing|].
  apply (init_mapper_loads_on_demand example_env (example_builder 10 None) None
           (example_state [])).
  apply surjective_pairing.
Defined.

Lemma get_mapper_for_source_errors_witness :
  let self := example_builder 10 None in
  let s := example_state [] in
  let docs : gmap string (option string) :=
    <["geneinfo" := None]> (<["refseq" := None]> ∅) in
  let run := get_mapper_for_source example_env self "ensembl" s in
  get_src_master_docs example_env (st_events s) = Ok docs
  ∧ (docs !! "ensembl" = None →
       run = (Raise (KeyError "ensembl"), add_event EGetSrcMasterDocs s))
  ∧ (∀ id_type, docs !! "ensembl" = Some id_type → id_type ∉ id_mappers self →
       run = (Raise (BuilderException
                       ("Found id_type '" +:+ default "None" id_type
                        +:+ "' but no mapper associated")),
              add_event EGetSrcMasterDocs s)).
Proof.
  cbv zeta. split; [reflexivity|].
  apply (get_mapper_for_source_errors example_env (example_builder 10 None)
           "ensembl" (example_state [])).
  reflexivity.
Defined.

Lemma merge_of_given_sources_keeps_target_witness :
  let self := example_builder 10 None in
  let s := example_state [finished_record "failed" "refseq"] in
  let run := merge example_env self (VList ["refseq"]) VNone 100000 s in
  VList ["refseq"] ≠ VNone
  ∧ ∃ evs, st_events run.2 = st_events s ++ evs
           ∧ Forall (λ e, e ≠ EDrop ∧ e ≠ EPrepare) evs.
Proof.
  cbv zeta. split; [discriminate|].
  apply (merge_of_given_sources_keeps_target example_env (example_builder 10 None)
           (VList ["refseq"]) VNone 100000 ltac:(discriminate)
           (example_state [finished_record "failed" "refseq"])
           (merge example_env (example_builder 10 None) (VList ["refseq"]) VNone
              100000 (example_state [finished_record "failed" "refseq"])).1).
  apply surjective_pairing.
Defined.

Lemma merge_never_counts_without_stats_witness :
  let self := example_builder 10 None in
  let s := example_state [finished_record "failed" "refseq"] in
  let run := merge example_env self VNone VNone 100000 s in
  _stats self = None
  ∧ ∃ evs, st_events run.2 = st_events s ++ evs ∧ Forall (λ e, e ≠ ECount) evs.
Proof.
  cbv zeta. split; [reflexivity|].
  apply (merge_never_counts_without_stats example_env (example_builder 10 None)
           VNone VNone 100000 eq_refl
           (example_state [finished_record "failed" "refseq"])
           (merge example_env (example_builder 10 None) VNone VNone
              100000 (example_state [finished_record "failed" "refseq"])).1).
  apply surjective_pairing.
Defined.

Lemma merge_with_parallel_engine_fails_witness :
  let self := parallel_builder in
  let s := example_state [finished_record "success" "refseq"] in
  let run := merge example_env self VNone VNone 100000 s in
  parallel_engine self = true
  ∧ (∃ e, run.1 = Raise e)
  ∧ ∃ evs, st_events run.2 = st_events s ++ evs ∧ Forall quiet evs.
Proof.
  cbv zeta. split; [reflexivity|].
  apply (merge_with_parallel_engine_fails example_env parallel_builder
           VNone VNone 100000
           (example_state [finished_record "success" "refseq"])).
  - reflexivity.
  - apply surjective_pairing.
Defined.

Lemma merge_returns_with_success_record_witness :
  let self := example_builder 10 None in
  let s := example_state [finished_record "success" "refseq"] in
  let run := merge versioned_env self VNone VNone 100000 s in
  bound self ∧ run.1 = Ok ()
  ∧ history_field 1 "stats" run.2
    = Some (VCounts (<["total_geneinfo" := 1%Z]> (<["total_refseq" := 1%Z]> ∅)))
  ∧ history_field 1 "src_versions" run.2
    = Some (VVersions (<["refseq" := "2016-10"]> ∅))
  ∧ ∃ srcs t1 t2 stats versions pre tail b r,
      merge_sources_arg self VNone = Some srcs
      ∧ st_events t1 = st_events s ++ pre
      ∧ Forall (λ e, e = EDrop ∨ e = EPrepare ∨ e = ESetTargetName VNone) pre
      ∧ merge_sources versioned_env self srcs 100000 t1 = (Ok stats, t2)
      ∧ get_src_versions versioned_env (st_events t2 ++ [EPostMerge]) = Ok versions
      ∧ st_events run.2 = st_events t2 ++ EPostMerge :: EGetSrcVersions :: tail
      ∧ st_build run.2 = Some (b ++ [r])
      ∧ r !! "status" = Some (VStr "success")
      ∧ r !! "stats" = Some (VCounts stats)
      ∧ r !! "src_versions" = Some (VVersions versions).
Proof.
  cbv zeta.
  set (run := merge versioned_env (example_builder 10 None) VNone VNone 100000
                (example_state [finished_record "success" "refseq"])).
  assert (Hok : run.1 = Ok ()) by (vm_compute; reflexivity).
  split; [apply example_bound|]. split; [exact Hok|].
  split; [vm_compute; reflexivity|]. split; [vm_compute; reflexivity|].
  apply (merge_returns_with_success_record versioned_env (example_builder 10 None)
           VNone VNone 100000
           (example_state [finished_record "success" "refseq"])).
  - apply example_bound.
  - transitivity (run.1, run.2); [apply surjective_pairing|by rewrite Hok].
Defined.

Lemma stats_after_merge_witness :
  let self := example_builder 10 None in
  let s := example_state [finished_record "success" "refseq"] in
  let run := merge example_env self VNone VNone 100000 s in
  bound self ∧ run.1 = Ok ()
  ∧ ∃ b r stats,
      st_build run.2 = Some (b ++ [r]) ∧ r !! "stats" = Some (VCounts stats)
      ∧ get_last_src_build_stats self true run.2
        = (Ok (if bool_decide (stats = ∅) then VNone else VCounts stats), run.2)
      ∧ get_last_src_build_stats self false run.2 = (Ok VNone, run.2).
Proof.
  cbv zeta.
  set (run := merge example_env (example_builder 10 None) VNone VNone 100000
                (example_state [finished_record "success" "refseq"])).
  assert (Hok : run.1 = Ok ()) by (vm_compute; reflexivity).
  split; [apply example_bound|]. split; [exact Hok|].
  apply (stats_after_merge example_env (example_builder 10 None)
           VNone VNone 100000
           (example_state [finished_record "success" "refseq"])).
  - apply example_bound.
  - transitivity (run.1, run.2); [apply surjective_pairing|by rewrite Hok].
Defined.

Example stats_after_example_merge :
  let run :=
    merge example_env (example_builder 10 None) VNone VNone 100000
      (example_state [finished_record "success" "refseq"]) in
  (get_last_src_build_stats (example_builder 10 None) true run.2).1
  = Ok (VCounts (<["total_geneinfo" := 1%Z]> (<["total_refseq" := 1%Z]> ∅))).
Proof. vm_compute. reflexivity. Qed.

Lemma merge_failure_record_witness :
  let self := example_builder 10 None in
  let names := ["geneinfo"; "refseq"] in
  let e := OtherException "IOError" "read failed" in
  let r0 := finished_record "success" "refseq" in
  let s := example_state ([] ++ [r0]) in
  let run := merge failing_env self (VList names) VNone 100000 s in
  set_order_ok failing_env ∧ bound self ∧ _stats self = None
  ∧ (0 ≤ max_build_status self)%Z ∧ st_build s = Some ([] ++ [r0])
  ∧ run.1 = Raise e ∧ caught_by_merge e = true
  ∧ ((truthy VNone = true
      ∧ respond failing_env (st_events s) (ESetTargetName VNone) = Some e
      ∧ st_build run.2 = st_build s)
     ∨ ∃ b r st,
         st_build run.2 = Some (b ++ [r])
         ∧ r !! "status" = Some (VStr "failed")
         ∧ r !! "err" = Some (VStr (exn_repr e))
         ∧ r !! "sources" = Some (VList names)
         ∧ r !! "step" = Some (VStr st)
         ∧ (st = "init" ∨ st ∈ names)).
Proof.
  cbv zeta.
  set (run := merge failing_env (example_builder 10 None)
                (VList ["geneinfo"; "refseq"]) VNone 100000
                (example_state ([] ++ [finished_record "success" "refseq"]))).
  assert (Hrun : run.1 = Raise (OtherException "IOError" "read failed"))
    by (vm_compute; reflexivity).
  assert (Hord : set_order_ok failing_env) by (by intros X).
  split; [exact Hord|]. split; [apply example_bound|]. split; [reflexivity|].
  split; [vm_compute; discriminate|]. split; [reflexivity|].
  split; [exact Hrun|]. split; [reflexivity|].
  apply (merge_failure_record failing_env (example_builder 10 None)
           ["geneinfo"; "refseq"] VNone 100000
           (example_state ([] ++ [finished_record "success" "refseq"])) run.2
           (OtherException "IOError" "read failed") []
           (finished_record "success" "refseq")).
  - exact Hord.
  - apply example_bound.
  - reflexivity.
  - vm_compute. discriminate.
  - reflexivity.
  - transitivity (run.1, run.2); [apply surjective_pairing|by rewrite Hrun].
  - reflexivity.
Defined.

Lemma merge_sources_stats_keys_witness :
  let self := example_builder 10 None in
  let names := ["refseq"; "geneinfo"] in
  let s := example_state [finished_record "success" "refseq"] in
  let run := merge_sources example_env self (VList names) 100000 s in
  let stats := <["total_geneinfo" := 1%Z]> (<["total_refseq" := 1%Z]> ∅) in
  set_order_ok example_env ∧ run.1 = Ok stats
  ∧ ∀ k, is_Some (stats !! k) ↔ ∃ n, n ∈ names ∧ k = "total_" +:+ n.
Proof.
  cbv zeta.
  set (run := merge_sources example_env (example_builder 10 None)
                (VList ["refseq"; "geneinfo"]) 100000
                (example_state [finished_record "success" "refseq"])).
  assert (Hok : run.1 = Ok (<["total_geneinfo" := 1%Z]> (<["total_refseq" := 1%Z]> ∅)))
    by (vm_compute; reflexivity).
  split; [apply example_set_order_ok|]. split; [exact Hok|].
  apply (merge_sources_stats_keys example_env (example_builder 10 None)
           ["refseq"; "geneinfo"] 100000
           (example_state [finished_record "success" "refseq"]) run.2).
  - apply example_set_order_ok.
  - transitivity (run.1, run.2); [apply surjective_pairing|by rewrite Hok].
Defined.

End BuilderExtra.
